(** * AdvancedTextAnalyzer: a shallow embedding of [advanced_analyzer.py]

    The Python class [AdvancedTextAnalyzer] turns a text into a subject
    label, a learning-style ranking, a readability and an engagement score,
    keywords, flashcards, prerequisites and a notes template.  This file
    embeds those methods as Rocq functions and proves the properties the
    specification states about them.

    Modelling decisions:
    - a Python [str] is the list of its Unicode code points ([list Z]);
    - [str.lower] and [str.isalnum] depend on the Unicode character
      database; they are the two fields of the class [Unicode], so every
      result holds for whatever these tables are;
    - a Python [float] is a primitive binary64 [float]; [int / int] is the
      correctly rounded quotient;
    - a Python [dict] is an association list in insertion order;
    - an operation that can raise ([ZeroDivisionError], [ValueError] of
      [max] on an empty iterable) returns [option]. *)

From Stdlib Require Import String Ascii.
From Stdlib Require Import ZArith List Bool Lia Floats.
From Stdlib Require Import Sorted Permutation.
Import ListNotations.
Open Scope Z_scope.

(** The decimal constants of the readability formula are read as the
    nearest binary64 values, as Python reads them. *)
Set Warnings "-inexact-float".

(** ** Python strings *)

Module PyStr.

Definition str := list Z.

(** Decoding of the UTF-8 bytes of a Rocq string literal, used to write
    the Cyrillic constants of the source. *)
Fixpoint utf8_go (acc : Z) (need : nat) (bs : list Z) : str :=
  match bs with
  | [] => []
  | b :: bs' =>
    match need with
    | O =>
      if b <? 128 then b :: utf8_go 0 O bs'
      else if b <? 224 then utf8_go (b - 192) 1%nat bs'
      else if b <? 240 then utf8_go (b - 224) 2%nat bs'
      else utf8_go (b - 240) 3%nat bs'
    | S O => (acc * 64 + (b - 128)) :: utf8_go 0 O bs'
    | S n => utf8_go (acc * 64 + (b - 128)) n bs'
    end
  end.

Definition u (s : string) : str :=
  utf8_go 0 O (map (fun a => Z.of_nat (nat_of_ascii a)) (list_ascii_of_string s)).

Fixpoint str_eqb (a b : str) : bool :=
  match a, b with
  | [], [] => true
  | x :: a', y :: b' => (x =? y) && str_eqb a' b'
  | _, _ => false
  end.

(** [len(l)] of a string or a list. *)
Definition len {A} (l : list A) : Z := Z.of_nat (length l).

(** [s.startswith(sub)] *)
Fixpoint startswith (sub s : str) : bool :=
  match sub, s with
  | [], _ => true
  | x :: sub', y :: s' => (x =? y) && startswith sub' s'
  | _ :: _, [] => false
  end.

(** [sub in s] *)
Fixpoint contains (sub s : str) : bool :=
  startswith sub s ||
  match s with
  | [] => false
  | _ :: s' => contains sub s'
  end.

(** [s.count(sub)]: occurrences found left to right without overlap;
    [skip] is the number of characters still covered by the last
    occurrence. *)
Fixpoint count_from (skip : nat) (sub s : str) : Z :=
  match s with
  | [] => 0
  | _ :: s' =>
    match skip with
    | S k => count_from k sub s'
    | O =>
      if startswith sub s
      then 1 + count_from (length sub - 1) sub s'
      else count_from O sub s'
    end
  end.

Definition count (sub s : str) : Z :=
  match sub with
  | [] => len s + 1
  | _ :: _ => count_from O sub s
  end.

(** [s.split(c)] for a one-character separator. *)
Fixpoint split_char (c : Z) (s : str) : list str :=
  match s with
  | [] => [[]]
  | x :: s' =>
    if x =? c then [] :: split_char c s'
    else match split_char c s' with
         | f :: fs => (x :: f) :: fs
         | [] => [[x]]
         end
  end.

(** The characters CPython treats as whitespace ([Py_UNICODE_ISSPACE]):
    the set used by [str.split()], [str.strip()] and the pattern [\s]. *)
Definition is_space (c : Z) : bool :=
  ((9 <=? c) && (c <=? 13)) || ((28 <=? c) && (c <=? 32)) ||
  (c =? 133) || (c =? 160) || (c =? 5760) ||
  ((8192 <=? c) && (c <=? 8202)) ||
  (c =? 8232) || (c =? 8233) || (c =? 8239) || (c =? 8287) || (c =? 12288).

Fixpoint lstrip (s : str) : str :=
  match s with
  | [] => []
  | c :: s' => if is_space c then lstrip s' else s
  end.

(** [s.strip()] *)
Definition strip (s : str) : str := rev (lstrip (rev (lstrip s))).

(** [s.split()]: the maximal runs of non-whitespace characters. *)
Fixpoint split_ws (s : str) : list str :=
  match s with
  | [] => []
  | c :: s' =>
    if is_space c then split_ws s'
    else
      let rest := split_ws s' in
      match s', rest with
      | d :: _, w :: ws => if is_space d then [c] :: rest else (c :: w) :: ws
      | _, _ => [c] :: rest
      end
  end.

(** Truth value of a string or a list: non-empty. *)
Definition truthy {A} (l : list A) : bool :=
  match l with [] => false | _ :: _ => true end.

Definition mem (k : str) (l : list str) : bool := existsb (str_eqb k) l.

End PyStr.
Import PyStr.

(** ** Python numbers *)

Module PyNum.

(** The value of a numeric expression is an [int] or a [float]. *)
Inductive num :=
| PInt (z : Z)
| PFloat (f : float).

Definition Z2SF (z : Z) : spec_float :=
  match z with
  | Z0 => S754_zero false
  | Zpos p => S754_finite false p 0
  | Zneg p => S754_finite true p 0
  end.

(** The float nearest to the exact quotient [a / b] (ties to even), which
    is what [int / int] returns.  CPython raises [OverflowError] where
    this quotient exceeds the binary64 range (operands above [2^1023]);
    that case is returned as an infinity here. *)
Definition truediv_value (a b : Z) : float :=
  SF2Prim (SFdiv prec emax (Z2SF a) (Z2SF b)).

(** [a / b] on ints; [None] is [ZeroDivisionError]. *)
Definition int_truediv (a b : Z) : option float :=
  if b =? 0 then None else Some (truediv_value a b).

Definition to_float (x : num) : float :=
  match x with
  | PInt z => truediv_value z 1
  | PFloat f => f
  end.

(** [a < b] and [a <= b].  A mixed comparison is made on the float of the
    int, which is exact for the int constants of this program. *)
Definition num_lt (a b : num) : bool :=
  match a, b with
  | PInt x, PInt y => x <? y
  | _, _ => PrimFloat.ltb (to_float a) (to_float b)
  end.

Definition num_le (a b : num) : bool :=
  match a, b with
  | PInt x, PInt y => x <=? y
  | _, _ => PrimFloat.leb (to_float a) (to_float b)
  end.

(** [min(a, b)] keeps [a] unless [b < a]; [max(a, b)] keeps [a] unless
    [b > a]. *)
Definition py_min (a b : num) : num := if num_lt b a then b else a.
Definition py_max (a b : num) : num := if num_lt a b then b else a.

(** The integer nearest to [n / d] for [d > 0], ties to the even one. *)
Definition round_half_even (n d : Z) : Z :=
  let q := n / d in
  match 2 * (n mod d) ?= d with
  | Lt => q
  | Gt => q + 1
  | Eq => if Z.even q then q else q + 1
  end.

(** The integer nearest to [10 * m * 2^e]. *)
Definition tenths (m : positive) (e : Z) : Z :=
  if 0 <=? e then 10 * Zpos m * 2 ^ e
  else round_half_even (10 * Zpos m) (2 ^ (- e)).

(** [round(f, 1)] on a float: the exact value of [f] is rounded to the
    nearest multiple of one tenth, and the float nearest to that decimal
    is returned; zeros, infinities and NaN are returned unchanged. *)
Definition float_round1 (f : float) : float :=
  match Prim2SF f with
  | S754_finite s m e =>
    let q := truediv_value (tenths m e) 10 in
    if s then (- q)%float else q
  | _ => f
  end.

(** [round(x, 1)]: an int is returned as it is. *)
Definition py_round1 (x : num) : num :=
  match x with
  | PInt z => PInt z
  | PFloat f => PFloat (float_round1 f)
  end.

End PyNum.
Import PyNum.

(** ** Python dictionaries, [max], [sorted] and [Counter] *)

Module PyDict.

(** A [defaultdict(int)] in insertion order. *)
Definition dict := list (str * Z).

(** [d[k] += n] *)
Fixpoint add (k : str) (n : Z) (d : dict) : dict :=
  match d with
  | [] => [(k, n)]
  | (k', v) :: d' =>
    if str_eqb k k' then (k', v + n) :: d' else (k', v) :: add k n d'
  end.

(** [d.get(k)] *)
Fixpoint get (k : str) (d : dict) : option Z :=
  match d with
  | [] => None
  | (k', v) :: d' => if str_eqb k k' then Some v else get k d'
  end.

(** [max(d, key=d.get)]: the running best is replaced only by a strictly
    greater value; [None] is the [ValueError] on an empty dict. *)
Definition max_key (d : dict) : option str :=
  match d with
  | [] => None
  | kv :: rest =>
    Some (fst (fold_left (fun best x => if snd x >? snd best then x else best)
                         rest kv))
  end.

(** [sorted(d.items(), key=lambda x: x[1], reverse=True)]: a stable sort,
    so items of equal value keep their order. *)
Fixpoint insert_desc (x : str * Z) (l : list (str * Z)) : list (str * Z) :=
  match l with
  | [] => [x]
  | y :: l' => if snd y >? snd x then y :: insert_desc x l' else x :: l
  end.

Definition sorted_desc (l : list (str * Z)) : list (str * Z) :=
  fold_right insert_desc [] l.

(** [Counter(words)]: one entry per distinct word, in the order of first
    occurrence. *)
Definition Counter (words : list str) : dict :=
  fold_left (fun d w => add w 1 d) words [].

(** [c.most_common(n)], that is [sorted(...)[:n]]. *)
Definition most_common (n : nat) (c : dict) : list (str * Z) :=
  firstn n (sorted_desc c).

End PyDict.
Import PyDict.

(** ** The two regular expressions of the source *)

(** [str.lower] and [str.isalnum] (on one character) come from the Unicode
    character database.  Two facts about them are used: the empty string
    lowers to itself, and the letters [a-z] and [а-я] are alphanumeric. *)
Definition is_lower_letter (c : Z) : bool :=
  ((1072 <=? c) && (c <=? 1103)) || ((97 <=? c) && (c <=? 122)).

Class Unicode := {
  lower : str -> str;
  isalnum : Z -> bool;
  lower_empty : lower [] = [];
  isalnum_lower_letter : forall c, is_lower_letter c = true -> isalnum c = true
}.

Module Regex.

(** [re.findall(p, s)] for a pattern [p] without groups that matches no
    empty string.  [m prev s] is the length of the match of [p] at the
    head of [s], where [prev] is the character before it.  The scan goes
    left to right and resumes after each match. *)
Fixpoint findall_from (m : option Z -> str -> option nat)
         (prev : option Z) (skip : nat) (s : str) : list str :=
  match s with
  | [] => []
  | c :: s' =>
    match skip with
    | S k => findall_from m (Some c) k s'
    | O =>
      match m prev s with
      | Some n => firstn n s :: findall_from m (Some c) (n - 1) s'
      | None => findall_from m (Some c) O s'
      end
    end
  end.

Definition findall (m : option Z -> str -> option nat) (s : str) : list str :=
  findall_from m None O s.

(** The pattern [\n\s*[b]\s] for a class [b] of bullet characters, none
    of which is whitespace: a line feed, the longest run of whitespace,
    a bullet, one whitespace character. *)
Definition bullet_line (bullets : list Z) (_ : option Z) (s : str) : option nat :=
  match s with
  | 10 :: r =>
    match lstrip r with
    | b :: sp :: _ =>
      if existsb (Z.eqb b) bullets && is_space sp
      then Some (length s - length (lstrip r) + 2)%nat
      else None
    | _ => None
    end
  | _ => None
  end.

Fixpoint letters_run (s : str) : nat :=
  match s with
  | c :: s' => if is_lower_letter c then S (letters_run s') else O
  | [] => O
  end.

Section Word.
Context {U : Unicode}.

(** [\w]: alphanumeric or underscore. *)
Definition is_word (c : Z) : bool := isalnum c || (c =? 95).

Definition is_word_opt (c : option Z) : bool :=
  match c with Some x => is_word x | None => false end.

(** The pattern [\b[а-яa-z]+\b].  Every character of the class is a
    word character, so the first [\b] asks for no word character
    before, and the last [\b] can hold only after the longest run of
    class characters, where it asks for no word character after. *)
Definition word_token (prev : option Z) (s : str) : option nat :=
  match s with
  | c :: _ =>
    if is_lower_letter c && negb (is_word_opt prev)
    then match skipn (letters_run s) s with
         | [] => Some (letters_run s)
         | d :: _ => if is_word d then None else Some (letters_run s)
         end
    else None
  | [] => None
  end.
End Word.

End Regex.
Import Regex.

(** ** The analyzer *)

(** ValueError and ZeroDivisionError are threaded through [option]. *)
Notation "x <- e ;; k" := (match e with Some x => k | None => None end)
  (at level 61, e at next level, right associativity).

(** [sum(l)] *)
Definition sum (l : list Z) : Z := fold_left Z.add l 0.

(** [len(set(l))] *)
Fixpoint distinct (l : list str) : list str :=
  match l with
  | [] => []
  | x :: l' => if mem x l' then distinct l' else x :: distinct l'
  end.

(** [d.get(k)] on a dict with list values. *)
Fixpoint lookup {A} (k : str) (d : list (str * A)) : option A :=
  match d with
  | [] => None
  | (k', v) :: d' => if str_eqb k k' then Some v else lookup k d'
  end.

(** [self.subject_keywords] *)
Definition subject_keywords : list (str * list str) :=
  [ (u "программирование",
     [u "код"; u "функция"; u "переменная"; u "класс"; u "объект"; u "алгоритм"; u "программа"]);
    (u "математика",
     [u "уравнение"; u "формула"; u "теорема"; u "доказательство"; u "функция"; u "производная"]);
    (u "физика",
     [u "энергия"; u "сила"; u "скорость"; u "движение"; u "температура"; u "волна"]);
    (u "химия",
     [u "реакция"; u "элемент"; u "молекула"; u "атом"; u "соединение"; u "вещество"]);
    (u "биология",
     [u "клетка"; u "организм"; u "эволюция"; u "ген"; u "белок"; u "ткань"]);
    (u "история",
     [u "война"; u "революция"; u "империя"; u "государство"; u "культура"; u "событие"]);
    (u "языки",
     [u "грамматика"; u "слово"; u "предложение"; u "глагол"; u "существительное"; u "текст"]) ].

(** [self.learning_styles] *)
Definition learning_styles : list (str * list str) :=
  [ (u "визуальный",
     [u "диаграмма"; u "схема"; u "график"; u "таблица"; u "рисунок"; u "изображение"]);
    (u "аудиальный",
     [u "объяснение"; u "лекция"; u "дискуссия"; u "обсуждение"; u "диалог"]);
    (u "практический",
     [u "упражнение"; u "практика"; u "задача"; u "проект"; u "эксперимент"; u "применение"]) ].

Definition general : str := u "общий".
Definition visual : str := u "визуальный".
Definition auditory : str := u "аудиальный".
Definition practical : str := u "практический".

(** The loop shared by [detect_subject] and [suggest_learning_style]:
<<
   for category, keywords in lexicon.items():
       for keyword in keywords:
           if keyword in text_lower:
               scores[category] += gain(keyword)
>> *)
Definition score_keywords (gain : str -> Z) (text_lower : str)
           (lexicon : list (str * list str)) (scores : dict) : dict :=
  fold_left
    (fun scores entry =>
       fold_left
         (fun scores keyword =>
            if contains keyword text_lower
            then add (fst entry) (gain keyword) scores
            else scores)
         (snd entry) scores)
    lexicon scores.

Record flashcard := { front : str; back : str; keyword : str }.

Record interpretation := { level : str; description : str; recommendation : str }.

Record notes := {
  title : str;
  date : str;
  key_points : list str;
  keywords_to_remember : list str;
  questions_to_answer : list str;
  summary_space : str;
  reflection : str
}.

Record stats := {
  word_count : Z;
  sentence_count : Z;
  unique_words : Z;
  avg_sentence_length : float
}.

Record report := {
  basic_stats : stats;
  subject : str;
  keywords : list str;
  learning_styles_of : list str;
  readability_score : num;
  engagement_score : Z;
  prerequisites : list str;
  flashcards : list flashcard;
  notes_template : notes;
  difficulty_interpretation : interpretation
}.

Definition prerequisites_map : list (str * list str) :=
  [ (u "программирование",
     [u "Базовая компьютерная грамотность"; u "Логическое мышление"; u "Английский язык (базовый)"]);
    (u "математика", [u "Арифметика"; u "Базовая алгебра"; u "Логическое мышление"]);
    (u "физика", [u "Математика (алгебра)"; u "Базовые понятия о природе"]);
    (u "химия", [u "Математика"; u "Базовые понятия о веществах"]);
    (u "биология", [u "Общие знания о живых организмах"]);
    (u "история", [u "Хронологическое мышление"; u "География (базовая)"]);
    (u "языки", [u "Родной язык (хорошее знание)"; u "Базовая грамматика"]) ].

Definition advanced_keywords : list str :=
  [u "продвинутый"; u "сложный"; u "advanced"; u "комплексный"; u "интегрированный"].

Definition engaging_words : list str :=
  [u "интересно"; u "важно"; u "удивительно"; u "представьте"; u "давайте"; u "почему"; u "как"].

Definition stop_words : list str :=
  [u "это"; u "как"; u "что"; u "для"; u "или"; u "который"; u "the"; u "is"; u "and"; u "or"].

(** [_interpret_readability] *)
Definition _interpret_readability (score : num) : interpretation :=
  if num_le (PInt 70) score then
    {| level := u "Лёгкий";
       description := u "Текст легко читается и понимается";
       recommendation := u "Подходит для самостоятельного изучения" |}
  else if num_le (PInt 50) score then
    {| level := u "Средний";
       description := u "Требует внимания и концентрации";
       recommendation := u "Делайте заметки по ходу чтения" |}
  else
    {| level := u "Сложный";
       description := u "Сложный текст, требует глубокого изучения";
       recommendation := u "Читайте по частям, используйте дополнительные источники" |}.

(** [generate_study_notes_template] *)
Definition generate_study_notes_template (text : str) (keywords : list str) : notes :=
  {| title := u "Конспект по материалу";
     date := u "Дата изучения: __________";
     key_points :=
       [ u "1. ___________________________________";
         u "2. ___________________________________";
         u "3. ___________________________________";
         u "4. ___________________________________";
         u "5. ___________________________________" ];
     keywords_to_remember := firstn 8 keywords;
     questions_to_answer :=
       [ u "Q: Какова основная идея?";
         u "A: ___________________________________";
         [];
         u "Q: Как это применяется на практике?";
         u "A: ___________________________________";
         [];
         u "Q: С чем это связано?";
         u "A: ___________________________________" ];
     summary_space :=
       u "Краткое резюме своими словами:" ++ [10] ++ repeat 95 50 ++ repeat 10 5;
     reflection := u "Что я узнал нового?" ++ [10] ++ repeat 95 50 ++ repeat 10 3 |}.

Section Analyzer.
Context {U : Unicode}.

(** The [scores] of [detect_subject] when its loop ends. *)
Definition subject_scores (text : str) : dict :=
  let text_lower := lower text in
  score_keywords (fun keyword => count keyword text_lower) text_lower
                 subject_keywords [].

Definition detect_subject (text : str) : option str :=
  let scores := subject_scores text in
  if negb (truthy scores) then Some general
  else max_key scores.

(** The [scores] of [suggest_learning_style] before they are sorted. *)
Definition style_scores (text : str) : dict :=
  let text_lower := lower text in
  let scores := score_keywords (fun _ => 1) text_lower learning_styles [] in
  let scores :=
    if (count (u "```") text >? 0) || (count (u "def ") text >? 0)
    then add practical 5 scores else scores in
  let scores :=
    if len (findall (bullet_line [45; 42]) text) >? 3
    then add visual 3 scores else scores in
  scores.

Definition suggest_learning_style (text : str) : list str :=
  let suggested_styles := sorted_desc (style_scores text) in
  if negb (truthy suggested_styles) then [practical; visual; auditory]
  else map fst (firstn 2 suggested_styles).

Definition calculate_readability (text : str) : option num :=
  let sentences := filter (fun s => truthy (strip s)) (split_char 46 text) in
  let words := split_ws text in
  if negb (truthy sentences) || negb (truthy words) then Some (PInt 50)
  else
    avg_sentence_length <- int_truediv (len words) (len sentences) ;;
    avg_word_length <- int_truediv (sum (map len words)) (len words) ;;
    let readability :=
      (206.835 - 1.015 * avg_sentence_length - 84.6 * (avg_word_length / 5))%float in
    let readability := py_max (PInt 0) (py_min (PInt 100) (PFloat readability)) in
    Some (py_round1 readability).

(** The inner loop of [generate_flashcards], left by [break] at the
    first sentence that contains the keyword. *)
Fixpoint flashcard_for (keyword : str) (sentences : list str)
         (flashcards : list flashcard) : list flashcard :=
  match sentences with
  | [] => flashcards
  | sentence :: rest =>
    if contains (lower keyword) (lower sentence)
    then flashcards ++ [ {| front := u "Что такое " ++ keyword ++ u "?";
                            back := sentence;
                            keyword := keyword |} ]
    else flashcard_for keyword rest flashcards
  end.

Definition generate_flashcards (text : str) (keywords : list str) : list flashcard :=
  let sentences :=
    map strip (filter (fun s => truthy (strip s)) (split_char 46 text)) in
  fold_left (fun flashcards keyword => flashcard_for keyword sentences flashcards)
            (firstn 5 keywords) [].

Definition identify_prerequisites (text : str) (subject : str) : list str :=
  let base_prerequisites :=
    match lookup subject prerequisites_map with
    | Some l => l
    | None => [u "Базовая грамотность"; u "Желание учиться"]
    end in
  let text_lower := lower text in
  if existsb (fun keyword => contains keyword text_lower) advanced_keywords
  then (u "Средний уровень знаний в " ++ subject) :: base_prerequisites
  else base_prerequisites.

Definition calculate_engagement_score (text : str) : option Z :=
  let score := 50 in
  let text_lower := lower text in
  let score :=
    score + sum (map (fun _ => 2)
                     (filter (fun word => contains word text_lower) engaging_words)) in
  let score :=
    if contains (u "например") text_lower || contains (u "пример") text_lower
    then score + 10 else score in
  let score := score + count [63] text * 3 in
  let score := score + len (findall (bullet_line [45; 42; 8226]) text) * 2 in
  let sentences := split_char 46 text in
  score <- (if truthy sentences then
              avg_length <- int_truediv (sum (map (fun s => len (split_ws s)) sentences))
                                        (len sentences) ;;
              Some (if num_lt (PInt 25) (PFloat avg_length) then score - 10 else score)
            else Some score) ;;
  Some (Z.max 0 (Z.min 100 score)).

(** The first statements of [analyze_comprehensive]: [words],
    [filtered_words] and [keywords]. *)
Definition words_of (text : str) : list str := findall word_token (lower text).

Definition filtered_words_of (text : str) : list str :=
  filter (fun w => negb (mem w stop_words) && (len w >? 3)) (words_of text).

Definition keywords_of (text : str) : list str :=
  map fst (most_common 10 (Counter (filtered_words_of text))).

Definition analyze_comprehensive (text : str) : option report :=
  let words := words_of text in
  let sentences := filter (fun s => truthy (strip s)) (split_char 46 text) in
  let keywords := keywords_of text in
  subject <- detect_subject text ;;
  let learning_styles := suggest_learning_style text in
  readability <- calculate_readability text ;;
  engagement <- calculate_engagement_score text ;;
  let flashcards := generate_flashcards text keywords in
  let prerequisites := identify_prerequisites text subject in
  let notes_template := generate_study_notes_template text keywords in
  avg <- int_truediv (len words) (Z.max (len sentences) 1) ;;
  Some {| basic_stats :=
            {| word_count := len words;
               sentence_count := len sentences;
               unique_words := len (distinct words);
               avg_sentence_length := avg |};
          subject := subject;
          keywords := keywords;
          learning_styles_of := learning_styles;
          readability_score := readability;
          engagement_score := engagement;
          prerequisites := prerequisites;
          flashcards := flashcards;
          notes_template := notes_template;
          difficulty_interpretation := _interpret_readability readability |}.

End Analyzer.

(** A sample of the Unicode tables: CPython's [lower] and [isalnum] on
    ASCII and on the Russian alphabet, and the identity and [false]
    elsewhere.  It serves to run the analyzer on concrete texts. *)
Definition lower_char (c : Z) : Z :=
  if ((65 <=? c) && (c <=? 90)) || ((1040 <=? c) && (c <=? 1071)) then c + 32
  else if (c =? 1025) then 1105
  else c.

Definition isalnum_basic (c : Z) : bool :=
  ((48 <=? c) && (c <=? 57)) || ((65 <=? c) && (c <=? 90)) ||
  ((97 <=? c) && (c <=? 122)) || ((1040 <=? c) && (c <=? 1103)) ||
  (c =? 1025) || (c =? 1105).

#[export] Instance basic_unicode : Unicode.
Proof.
  refine {| lower := map lower_char; isalnum := isalnum_basic |}.
  - reflexivity.
  - intros c H. unfold is_lower_letter in H. unfold isalnum_basic. lia.
Defined.

(** ** Notions used to state the properties *)

Definition keys {A} (d : list (str * A)) : list str := map fst d.

(** What one category gains: the gains of its keywords found in the text. *)
Definition gained (gain : str -> Z) (text_lower : str) (kws : list str) : Z :=
  sum (map (fun k => if contains k text_lower then gain k else 0) kws).

(** The entry a category leaves in [scores]: none when it gained nothing. *)
Definition entry_of (k : str) (total : Z) : dict :=
  if total >? 0 then [(k, total)] else [].

Definition keep_best (best x : str * Z) : str * Z :=
  if snd x >? snd best then x else best.

(** The number of occurrences, in the lowercased text, of the keywords of
    one category: the score the specification gives the category. *)
Definition occurrences {U : Unicode} (text : str) (kws : list str) : Z :=
  sum (map (fun k => count k (lower text)) kws).

(** The three keywords of the example of [detect_subject]. *)
Definition example_keywords : list str := [u "функция"; u "код"; u "алгоритм"].

(** A text with 'функция', 'код' and 'алгоритм' five times each. *)
Definition five_times_text : str :=
  concat (repeat (u "Функция, код, алгоритм. ") 5).

(** How many keywords of a style occur in the lowercased text. *)
Definition present {U : Unicode} (text : str) (kws : list str) : Z :=
  len (filter (fun k => contains k (lower text)) kws).

(** A fenced code block marker or a function-definition marker. *)
Definition code_marker (text : str) : bool :=
  (count (u "```") text >? 0) || (count (u "def ") text >? 0).

(** The matches of the bullet pattern of [suggest_learning_style]. *)
Definition bullet_lines (text : str) : Z := len (findall (bullet_line [45; 42]) text).

(** The score the specification gives a style: one per keyword present,
    5 more for 'практический' on a code marker, 3 more for 'визуальный'
    on more than three bullet lines. *)
Definition style_points {U : Unicode} (text : str) (e : str * list str) : Z :=
  present text (snd e)
  + (if str_eqb (fst e) practical && code_marker text then 5 else 0)
  + (if str_eqb (fst e) visual && (bullet_lines text >? 3) then 3 else 0).

(** Four bullet lines, no style keyword, no code marker. *)
Definition bullets_text : str :=
  concat (repeat ([10] ++ u "- item") 4).

(** Descending by value; among equal values, the order [before]. *)
Definition desc_then (before : str * Z -> str * Z -> Prop) (a b : str * Z) : Prop :=
  snd b < snd a \/ (snd a = snd b /\ before a b).

(** ** [extract_questions] *)

(** The classes [[А-ЯA-Z]] and [[.!?]] of the pattern of
    [extract_questions]. *)
Definition is_upper_letter (c : Z) : bool :=
  ((1040 <=? c) && (c <=? 1071)) || ((65 <=? c) && (c <=? 90)).

Definition is_sentence_end (c : Z) : bool := (c =? 46) || (c =? 33) || (c =? 63).

(** The longest run of characters outside [[.!?]]. *)
Fixpoint body_run (s : str) : nat :=
  match s with
  | c :: s' => if is_sentence_end c then O else S (body_run s')
  | [] => O
  end.

(** The pattern [[А-ЯA-Z][^.!?]*\?]: a capital letter, the longest run of
    characters other than [.], [!] and [?], and a question mark.  A
    shorter run is followed by a character of the run, never by [?]. *)
Definition question (_ : option Z) (s : str) : option nat :=
  match s with
  | c :: r =>
    if is_upper_letter c then
      match skipn (body_run r) r with
      | d :: _ => if d =? 63 then Some (body_run r + 2)%nat else None
      | [] => None
      end
    else None
  | [] => None
  end.

Definition extract_questions (text : str) : list str :=
  let questions := findall question text in
  firstn 5 questions.

(** The character before the suffix that follows [pre], when [prev] is
    the character before [pre]. *)
Definition last_or (prev : option Z) (pre : str) : option Z :=
  match rev pre with
  | [] => prev
  | c :: _ => Some c
  end.

(** A text with two questions and one statement. *)
Definition questions_text : str := u "Что такое код? It is text. Why not? yes".

(** The sentences [generate_flashcards] searches: the fragments between
    periods, stripped, without the empty ones. *)
Definition flashcard_sentences (text : str) : list str :=
  map strip (filter (fun s => truthy (strip s)) (split_char 46 text)).

(** [keyword.lower() in sentence.lower()] *)
Definition mentions {U : Unicode} (keyword sentence : str) : bool :=
  contains (lower keyword) (lower sentence).

(** The card [generate_flashcards] makes of a keyword and a sentence. *)
Definition card (keyword sentence : str) : flashcard :=
  {| front := u "Что такое " ++ keyword ++ u "?"; back := sentence; keyword := keyword |}.

(** The cards of one keyword: one for the first sentence that mentions
    it, none when no sentence does. *)
Definition cards_of {U : Unicode} (text keyword : str) : list flashcard :=
  match find (mentions keyword) (flashcard_sentences text) with
  | Some sentence => [card keyword sentence]
  | None => []
  end.

(** A text of two sentences and the keywords asked of it. *)
Definition cards_text : str := u " Код это текст.  Алгоритм это порядок ".
Definition cards_keywords : list str := [u "алгоритм"; u "волна"; u "код"].

(** Two cards of that text. *)
Definition code_card : flashcard := card (u "код") (u "Код это текст").
Definition algorithm_card : flashcard := card (u "алгоритм") (u "Алгоритм это порядок").

(** How many times [k] is in [l], and where it is first. *)
Definition times (k : str) (l : list str) : Z := len (filter (str_eqb k) l).

Fixpoint index_of (k : str) (l : list str) : nat :=
  match l with
  | [] => O
  | x :: l' => if str_eqb k x then O else S (index_of k l')
  end.

(** The order of [most_common]: more frequent first, and among equally
    frequent words the one met first. *)
Definition ranks_before (l : list str) (a b : str) : Prop :=
  times b l < times a l \/ (times a l = times b l /\ (index_of a l < index_of b l)%nat).

(** A text whose most frequent long word is 'алгоритм'. *)
Definition keywords_text : str := u "Алгоритм и код. Это алгоритм, это код1 и текст".

(** The readability scores that can occur: the floats nearest to [k/10]
    for [k] from 0 to 1000. *)
Definition tenth_values : list Z := map Z.of_nat (seq 0 1001).

(** The three levels of [_interpret_readability]. *)
Definition easy : str := u "Лёгкий".
Definition medium : str := u "Средний".
Definition hard : str := u "Сложный".

(** [score >= 70], [50 <= score < 70] and [score < 50] pick the three
    levels, one each. *)
Definition level_matches (score : num) : bool :=
  let l := level (_interpret_readability score) in
  Bool.eqb (str_eqb l easy) (num_le (PInt 70) score) &&
  Bool.eqb (str_eqb l medium) (num_le (PInt 50) score && num_lt score (PInt 70)) &&
  Bool.eqb (str_eqb l hard) (num_lt score (PInt 50)).

(** A score is in the range of the scale: [0 <= score <= 100]. *)
Definition in_scale (score : num) : bool :=
  num_le (PInt 0) score && num_le score (PInt 100).

(** Two sentences of short words. *)
Definition plain_text : str := u "Кот спит. Дом стоит тут.".

(** The keyword 'функция' stands in two lexicon entries. *)
Definition shared_keyword : str := u "функция".

(** ** Lines that start with a bullet marker *)

(** Following the specification's words, "lines start with a bullet
    marker after whitespace": the lines are the pieces between line feeds,
    and a line starts with a bullet marker when its first character after
    leading whitespace is one of [bullets].  The markers are [-] and [*]
    for [suggest_learning_style], and [-], [*] and the bullet sign for
    [calculate_engagement_score]. *)
Definition is_bullet (bullets : list Z) (c : Z) : bool := existsb (Z.eqb c) bullets.

Definition starts_with_bullet (bullets : list Z) (line : str) : bool :=
  match lstrip line with
  | c :: _ => is_bullet bullets c
  | [] => false
  end.

Definition bullet_start_lines (bullets : list Z) (text : str) : Z :=
  len (filter (starts_with_bullet bullets) (split_char 10 text)).

(** A bullet line whose marker has a whitespace character after it, on
    the same line. *)
Definition spaced_bullet (bullets : list Z) (line : str) : bool :=
  match lstrip line with
  | c :: d :: _ => is_bullet bullets c && is_space d
  | _ => false
  end.

(** The texts in which no bullet line is the first line and every bullet
    marker has whitespace after it on its line. *)
Definition bullets_well_marked (bullets : list Z) (text : str) : bool :=
  negb (starts_with_bullet bullets (hd [] (split_char 10 text))) &&
  forallb (fun line => implb (starts_with_bullet bullets line) (spaced_bullet bullets line))
          (split_char 10 text).

(** The same two notions read off the text character by character;
    [fresh] tells that only whitespace was met since the last line feed
    (or since the start of the text). *)
Fixpoint fresh_bullets (bullets : list Z) (fresh : bool) (s : str) : Z :=
  match s with
  | [] => 0
  | c :: s' =>
    if c =? 10 then fresh_bullets bullets true s'
    else if is_space c then fresh_bullets bullets fresh s'
    else (if fresh && is_bullet bullets c then 1 else 0) + fresh_bullets bullets false s'
  end.

Fixpoint fresh_spaced (bullets : list Z) (fresh : bool) (s : str) : bool :=
  match s with
  | [] => true
  | c :: s' =>
    if c =? 10 then fresh_spaced bullets true s'
    else if is_space c then fresh_spaced bullets fresh s'
    else (if fresh && is_bullet bullets c
          then match s' with
               | d :: _ => is_space d && negb (d =? 10)
               | [] => false
               end
          else true) && fresh_spaced bullets false s'
  end.

(** The keywords the lexicon lists for a style. *)
Definition keywords_for (name : str) : list str :=
  match lookup name learning_styles with
  | Some l => l
  | None => []
  end.

(** The order of the entries of a dict. *)
Definition comes_before (d : dict) (a b : str * Z) : Prop :=
  (index_of (fst a) (keys d) < index_of (fst b) (keys d))%nat.

(** What [scores] holds when [suggest_learning_style] sorts it: the
    styles with a keyword present, in the order of the lexicon, then
    'практический' and 'визуальный' when only their bonus scored. *)
Definition expected_style_scores {U : Unicode} (text : str) : dict :=
  flat_map (fun e => if present text (snd e) >? 0
                     then [(fst e, style_points text e)] else [])
           learning_styles
  ++ (if (present text (keywords_for practical) =? 0) && code_marker text
      then [(practical, 5)] else [])
  ++ (if (present text (keywords_for visual) =? 0) && (bullet_lines text >? 3)
      then [(visual, 3)] else []).

(** Four bullet lines, the first of them on the first line of the text. *)
Definition first_line_bullets_text : str :=
  u "- a" ++ [10] ++ u "- b" ++ [10] ++ u "- c" ++ [10] ++ u "- d".

(** A text that scores the three styles: 'схема' for the visual style,
    'лекция' and 'диалог' for the auditory one, 'практика' and a code
    fence for the practical one. *)
Definition three_styles_text : str := u "схема, лекция и диалог; практика: ```".

(** ** Notions of the claims about the scores *)

(** The sentences of [calculate_readability]: the fragments between
    periods that are not blank. *)
Definition sentences_of (text : str) : list str :=
  filter (fun s => truthy (strip s)) (split_char 46 text).

(** The value of the readability formula, before it is clamped: the
    words per sentence and the characters per word are quotients of
    ints. *)
Definition flesch (text : str) : float :=
  let words := split_ws text in
  (206.835 - 1.015 * truediv_value (len words) (len (sentences_of text))
   - 84.6 * (truediv_value (sum (map len words)) (len words) / 5))%float.

(** Three sentences of long words, and a text of one short word. *)
Definition dense_text : str :=
  u "Программирование требует внимания. Алгоритмы описывают вычисления. Функции возвращают значения.".
Definition short_text : str := u "да".

(** The terms of the engagement score. *)
Definition engaging_present {U : Unicode} (text : str) : Z :=
  len (filter (fun word => contains word (lower text)) engaging_words).

Definition example_trigger {U : Unicode} (text : str) : bool :=
  contains (u "например") (lower text) || contains (u "пример") (lower text).

Definition question_marks (text : str) : Z := count [63] text.

(** The matches of the bullet pattern of [calculate_engagement_score]. *)
Definition engagement_bullets (text : str) : Z :=
  len (findall (bullet_line [45; 42; 8226]) text).

(** The words per fragment between periods, empty fragments included. *)
Definition words_per_sentence (text : str) : float :=
  truediv_value (sum (map (fun s => len (split_ws s)) (split_char 46 text)))
                (len (split_char 46 text)).

Definition long_sentences (text : str) : bool :=
  PrimFloat.ltb 25 (words_per_sentence text).

(** [x] clamped to the range from [lo] to [hi]. *)
Definition clamp (lo hi x : Z) : Z :=
  if x <? lo then lo else if hi <? x then hi else x.

(** The score before it is clamped, for a given count of bullet lines. *)
Definition engagement_points {U : Unicode} (bullets : Z) (text : str) : Z :=
  50 + 2 * engaging_present text
  + (if example_trigger text then 10 else 0)
  + 3 * question_marks text
  + 2 * bullets
  - (if long_sentences text then 10 else 0).

(** Four questions and nothing else that scores. *)
Definition four_questions_text : str := u "Кто? Что? Где? Зачем?".

(** Two bullet lines, the first of them on the first line of the text. *)
Definition two_bullets_text : str := u "- a" ++ [10] ++ u "- b".

(** Two bullet lines after a heading. *)
Definition listed_text : str := u "План:" ++ [10] ++ u "- код" ++ [10] ++ u "  * тест".

(** A character of the class [[а-яa-z]], if any. *)
Definition is_letter_opt (c : option Z) : bool :=
  match c with Some x => is_lower_letter x | None => false end.

(** * Properties *)

(** ** Sample evaluations *)

Example u_kod : u "код" = [1082; 1086; 1076].
Proof. reflexivity. Qed.

Example strip_ex : strip (u "  a b  " ++ [10]) = u "a b".
Proof. reflexivity. Qed.

Example split_ws_ex : split_ws (u "  ab  c d ") = [u "ab"; u "c"; u "d"].
Proof. reflexivity. Qed.

Example split_char_ex : split_char 46 (u "a.b..c.") = [u "a"; u "b"; []; u "c"; []].
Proof. reflexivity. Qed.

Example count_ex : count (u "aa") (u "aaaaa") = 2.
Proof. reflexivity. Qed.

(** ** Strings *)

Lemma str_eqb_eq (a b : str) : str_eqb a b = true <-> a = b.
Proof.
  revert b; induction a as [|x a IH]; intros [|y b]; simpl;
    try (split; (discriminate || reflexivity)).
  rewrite andb_true_iff, Z.eqb_eq, IH.
  split; [intros [-> ->]; reflexivity | intros E; inversion E; auto].
Qed.

Lemma str_eqb_refl (a : str) : str_eqb a a = true.
Proof. apply str_eqb_eq; reflexivity. Qed.

Lemma str_eqb_neq (a b : str) : a <> b -> str_eqb a b = false.
Proof.
  intros N. destruct (str_eqb a b) eqn:E; [|reflexivity].
  apply str_eqb_eq in E. contradiction.
Qed.

Lemma truthy_nonempty {A} (l : list A) : l <> [] -> truthy l = true.
Proof. destruct l; [congruence | reflexivity]. Qed.

(** A property of the items of a concrete list is checked by evaluation. *)
Lemma Forall_Zeqb {A} (f g : A -> Z) (l : list A) :
  forallb (fun x => f x =? g x) l = true -> Forall (fun x => f x = g x) l.
Proof.
  intros H. apply Forall_forall. intros x Hx.
  rewrite forallb_forall in H. apply Z.eqb_eq. apply H. exact Hx.
Qed.

Lemma mem_In (k : str) (l : list str) : mem k l = true <-> In k l.
Proof.
  unfold mem. rewrite existsb_exists. split.
  - intros (x & Hx & E). apply str_eqb_eq in E. subst; assumption.
  - intros H. exists k. split; [assumption | apply str_eqb_refl].
Qed.

Lemma fold_add_shift (l : list Z) (a : Z) : fold_left Z.add l a = a + sum l.
Proof.
  unfold sum. revert a. induction l as [|x l IH]; intros a; simpl.
  - lia.
  - rewrite IH, (IH x). lia.
Qed.

Lemma sum_cons (x : Z) (l : list Z) : sum (x :: l) = x + sum l.
Proof. unfold sum at 1. simpl. apply fold_add_shift. Qed.

Lemma sum_nil : sum [] = 0.
Proof. reflexivity. Qed.

Lemma len_cons {A} (x : A) (l : list A) : len (x :: l) = 1 + len l.
Proof. unfold len. simpl length. lia. Qed.

Lemma len_nonneg {A} (l : list A) : 0 <= len l.
Proof. unfold len. lia. Qed.

Lemma count_from_nonneg (skip : nat) (sub s : str) : 0 <= count_from skip sub s.
Proof.
  revert skip. induction s as [|c s IH]; intros skip; cbn [count_from]; [lia|].
  destruct skip; [|apply IH].
  destruct (startswith sub (c :: s)); [|apply IH].
  specialize (IH (length sub - 1)%nat). lia.
Qed.

Lemma count_nonneg (sub s : str) : 0 <= count sub s.
Proof.
  destruct sub; simpl; [pose proof (len_nonneg s); lia | apply count_from_nonneg].
Qed.

(** [sub in s] holds exactly when [s.count(sub)] is positive. *)
Lemma contains_count_pos (sub s : str) : contains sub s = true <-> 0 < count sub s.
Proof.
  destruct sub as [|x sub].
  - simpl. pose proof (len_nonneg s). destruct s; simpl; split; intros; (reflexivity || lia).
  - unfold count. induction s as [|c s IH].
    + simpl. split; [discriminate | lia].
    + cbn [contains count_from].
      destruct (startswith (x :: sub) (c :: s)) eqn:E.
      * pose proof (count_from_nonneg (length (x :: sub) - 1) (x :: sub) s).
        rewrite orb_true_l. split; [intros _; lia | reflexivity].
      * rewrite orb_false_l. exact IH.
Qed.

Lemma contains_false_count (sub s : str) : contains sub s = false -> count sub s = 0.
Proof.
  intros H. pose proof (count_nonneg sub s).
  destruct (Z.eq_dec (count sub s) 0) as [E|N]; [assumption|].
  assert (P : 0 < count sub s) by lia.
  apply contains_count_pos in P. congruence.
Qed.

(** ** Dictionaries *)

Lemma add_absent (k : str) (n : Z) (d : dict) :
  ~ In k (keys d) -> add k n d = d ++ [(k, n)].
Proof.
  induction d as [|[k' v] d IH]; simpl; intros H; [reflexivity|].
  rewrite str_eqb_neq by (intros ->; apply H; left; reflexivity).
  rewrite IH by (intros I; apply H; right; exact I). reflexivity.
Qed.

Lemma add_last (k : str) (n v : Z) (d : dict) :
  ~ In k (keys d) -> add k n (d ++ [(k, v)]) = d ++ [(k, v + n)].
Proof.
  induction d as [|[k' w] d IH]; simpl; intros H.
  - rewrite str_eqb_refl. reflexivity.
  - rewrite str_eqb_neq by (intros ->; apply H; left; reflexivity).
    rewrite IH by (intros I; apply H; right; exact I). reflexivity.
Qed.

Lemma get_app_absent (k : str) (d1 d2 : dict) :
  ~ In k (keys d1) -> get k (d1 ++ d2) = get k d2.
Proof.
  induction d1 as [|[k' w] d IH]; simpl; intros H; [reflexivity|].
  rewrite str_eqb_neq by (intros ->; apply H; left; reflexivity).
  apply IH. intros I; apply H; right; exact I.
Qed.

(** ** The scoring loop *)

Lemma add_entry (k : str) (a g : Z) (scores : dict) :
  ~ In k (keys scores) -> 0 <= a -> 0 < g ->
  add k g (scores ++ entry_of k a) = scores ++ entry_of k (a + g).
Proof.
  intros Hk Ha Hg. unfold entry_of. rewrite !Z.gtb_ltb.
  destruct (Z.ltb_spec 0 (a + g)) as [_|]; [|lia].
  destruct (Z.ltb_spec 0 a) as [Hp|Hz].
  - apply add_last; assumption.
  - assert (a = 0) by lia. subst a. rewrite app_nil_r.
    apply add_absent; assumption.
Qed.

Lemma gained_nonneg gain tl kws :
  (forall k, 0 <= gain k) -> 0 <= gained gain tl kws.
Proof.
  intros Hg. unfold gained. induction kws as [|k kws IH]; simpl map.
  - rewrite sum_nil; lia.
  - rewrite sum_cons. specialize (Hg k). destruct (contains k tl); lia.
Qed.

Lemma inner_loop gain tl k kws scores a :
  (forall w, contains w tl = true -> 0 < gain w) ->
  ~ In k (keys scores) -> 0 <= a ->
  fold_left (fun sc w => if contains w tl then add k (gain w) sc else sc)
            kws (scores ++ entry_of k a)
  = scores ++ entry_of k (a + gained gain tl kws).
Proof.
  intros Hg Hk. revert a. induction kws as [|w kws IH]; intros a Ha.
  - unfold gained; simpl map; rewrite sum_nil, Z.add_0_r. reflexivity.
  - cbn [fold_left]. unfold gained. simpl map. rewrite sum_cons.
    fold (gained gain tl kws).
    destruct (contains w tl) eqn:E.
    + rewrite add_entry by (auto; apply Hg; exact E).
      rewrite IH by (specialize (Hg w E); lia). f_equal. f_equal. lia.
    + rewrite IH by assumption. f_equal.
Qed.

Lemma keys_app {A} (d1 d2 : list (str * A)) : keys (d1 ++ d2) = keys d1 ++ keys d2.
Proof. apply map_app. Qed.

Lemma keys_entry_of k a x : In x (keys (entry_of k a)) -> x = k.
Proof.
  unfold entry_of. destruct (a >? 0); simpl; intros H;
    [destruct H as [H|[]]; auto | destruct H].
Qed.

(** After the loop, [scores] holds the categories that gained something,
    in the order of the lexicon, each with what it gained. *)
Lemma score_keywords_eq gain tl lexicon scores :
  (forall w, contains w tl = true -> 0 < gain w) ->
  NoDup (keys lexicon) ->
  (forall k, In k (keys lexicon) -> ~ In k (keys scores)) ->
  score_keywords gain tl lexicon scores
  = scores ++ flat_map (fun e => entry_of (fst e) (gained gain tl (snd e))) lexicon.
Proof.
  intros Hg. unfold score_keywords.
  revert scores. induction lexicon as [|[k kws] lex IH]; intros scores Hnd Hk.
  - simpl. rewrite app_nil_r. reflexivity.
  - cbn [fold_left flat_map fst snd].
    assert (Hk0 : ~ In k (keys scores)) by (apply Hk; left; reflexivity).
    pose proof (inner_loop gain tl k kws scores 0 Hg Hk0 (Z.le_refl 0)) as L.
    change (entry_of k 0) with (@nil (str * Z)) in L.
    rewrite app_nil_r, Z.add_0_l in L. rewrite L.
    inversion Hnd as [|? ? Hn Hnd']; subst.
    rewrite IH.
    + rewrite <- app_assoc. reflexivity.
    + assumption.
    + intros x Hx Hin. rewrite keys_app in Hin. apply in_app_or in Hin.
      destruct Hin as [Hin|Hin].
      * apply (Hk x); [right; exact Hx | exact Hin].
      * apply keys_entry_of in Hin. subst x. apply Hn. exact Hx.
Qed.

(** ** [max] with a key *)

Lemma fold_keep_best rest : forall pre k v post,
  Forall (fun x => snd x < v) pre ->
  Forall (fun x => snd x <= v) post ->
  exists pre' k' v' post',
    pre ++ (k, v) :: post ++ rest = pre' ++ (k', v') :: post' /\
    fold_left keep_best rest (k, v) = (k', v') /\
    Forall (fun x => snd x < v') pre' /\
    Forall (fun x => snd x <= v') post'.
Proof.
  induction rest as [|[k1 v1] rest IH]; intros pre k v post Hpre Hpost.
  - exists pre, k, v, post. rewrite app_nil_r. auto.
  - cbn [fold_left]. unfold keep_best at 2. cbn [snd]. rewrite Z.gtb_ltb.
    destruct (Z.ltb_spec v v1) as [Hlt|Hge].
    + destruct (IH (pre ++ (k, v) :: post) k1 v1 []) as (pre' & k' & v' & post' & E & F & P1 & P2).
      * apply Forall_app. split.
        -- eapply Forall_impl; [|exact Hpre]. simpl; intros; lia.
        -- constructor; [simpl; lia|].
           eapply Forall_impl; [|exact Hpost]. simpl; intros; lia.
      * constructor.
      * exists pre', k', v', post'. repeat split; try assumption.
        rewrite <- E. rewrite <- app_assoc. reflexivity.
    + destruct (IH pre k v (post ++ [(k1, v1)])) as (pre' & k' & v' & post' & E & F & P1 & P2).
      * assumption.
      * apply Forall_app. split; [assumption|]. constructor; [simpl; lia | constructor].
      * exists pre', k', v', post'. repeat split; try assumption.
        rewrite <- E. rewrite <- (app_assoc post). reflexivity.
Qed.

(** [max(d, key=d.get)] is the first key that carries the greatest value. *)
Lemma max_key_first (d : dict) :
  d <> [] ->
  exists pre k v post,
    d = pre ++ (k, v) :: post /\ max_key d = Some k /\
    Forall (fun x => snd x < v) pre /\ Forall (fun x => snd x <= v) post.
Proof.
  destruct d as [|[k v] rest]; [congruence|]. intros _.
  destruct (fold_keep_best rest [] k v []) as (pre' & k' & v' & post' & E & F & P1 & P2);
    try constructor.
  exists pre', k', v', post'. repeat split; try assumption.
  unfold max_key. fold keep_best. rewrite F. reflexivity.
Qed.

(** Cutting the list of entries cuts the lexicon. *)
Lemma flat_map_entry_split (T : str * list str -> Z) lexicon : forall pre k v post,
  flat_map (fun e => entry_of (fst e) (T e)) lexicon = pre ++ (k, v) :: post ->
  exists lpre e lpost,
    lexicon = lpre ++ e :: lpost /\ k = fst e /\ v = T e /\ 0 < v /\
    pre = flat_map (fun e => entry_of (fst e) (T e)) lpre /\
    post = flat_map (fun e => entry_of (fst e) (T e)) lpost.
Proof.
  induction lexicon as [|[k0 kws] lex IH]; intros pre k v post E.
  - destruct pre; discriminate E.
  - cbn [flat_map fst snd] in E. unfold entry_of at 1 in E.
    rewrite Z.gtb_ltb in E. destruct (Z.ltb_spec 0 (T (k0, kws))) as [Hp|Hz].
    + destruct pre as [|p pre].
      * simpl in E. inversion E; subst.
        exists [], (k, kws), lex. simpl. repeat split; auto.
      * simpl in E. inversion E as [[Ep E']]. subst p.
        destruct (IH _ _ _ _ E') as (lpre & e & lpost & L & K & V & P & A & B).
        exists ((k0, kws) :: lpre), e, lpost. subst lex.
        repeat split; auto.
        cbn [flat_map fst snd]. unfold entry_of at 1. rewrite Z.gtb_ltb.
        destruct (Z.ltb_spec 0 (T (k0, kws))); [|lia]. simpl. f_equal. exact A.
    + simpl in E.
      destruct (IH _ _ _ _ E) as (lpre & e & lpost & L & K & V & P & A & B).
      exists ((k0, kws) :: lpre), e, lpost. subst lex.
      repeat split; auto.
      cbn [flat_map fst snd]. unfold entry_of at 1. rewrite Z.gtb_ltb.
      destruct (Z.ltb_spec 0 (T (k0, kws))); [lia|]. simpl. exact A.
Qed.

Lemma Forall_entries (T : str * list str -> Z) (R : Z -> Prop) l :
  (forall z, z <= 0 -> R z) ->
  Forall (fun x : str * Z => R (snd x)) (flat_map (fun e => entry_of (fst e) (T e)) l) ->
  Forall (fun e : str * list str => R (T e)) l.
Proof.
  intros R0. induction l as [|[k kws] l IH]; intros H; [constructor|].
  cbn [flat_map fst snd] in H. apply Forall_app in H. destruct H as [H1 H2].
  constructor; [|apply IH; exact H2].
  cbn [snd]. unfold entry_of in H1. rewrite Z.gtb_ltb in H1.
  destruct (Z.ltb_spec 0 (T (k, kws))).
  - inversion H1; assumption.
  - apply R0; assumption.
Qed.

Lemma keys_entries (T : str * list str -> Z) l x :
  In x (keys (flat_map (fun e => entry_of (fst e) (T e)) l)) -> In x (keys l).
Proof.
  induction l as [|[k kws] l IH]; simpl; [auto|].
  unfold keys in *. rewrite map_app, in_app_iff. intros [H|H].
  - left. symmetry. eapply keys_entry_of. exact H.
  - right. apply IH. exact H.
Qed.

Lemma flat_map_nil_iff {A B} (f : A -> list B) l :
  flat_map f l = [] <-> forall x, In x l -> f x = [].
Proof.
  induction l as [|a l IH]; simpl.
  - split; [intros _ x [] | reflexivity].
  - split.
    + intros H. apply app_eq_nil in H. destruct H as [H1 H2].
      intros x [<-|Hx]; [assumption | apply IH; assumption].
    + intros H. rewrite (H a) by (left; reflexivity). simpl. apply IH.
      intros x Hx. apply H. right; assumption.
Qed.

Lemma flat_map_ext_In {A B} (f g : A -> list B) l :
  (forall x, In x l -> f x = g x) -> flat_map f l = flat_map g l.
Proof.
  induction l as [|a l IH]; simpl; intros H; [reflexivity|].
  rewrite H by (left; reflexivity). f_equal. apply IH. intros; apply H; right; assumption.
Qed.

Lemma NoDup_keys_subject : NoDup (keys subject_keywords).
Proof.
  vm_compute. repeat constructor; simpl; intuition discriminate.
Qed.

Lemma NoDup_keys_styles : NoDup (keys learning_styles).
Proof.
  vm_compute. repeat constructor; simpl; intuition discriminate.
Qed.

(** ** [detect_subject] *)

Section DetectSubject.
Context {U : Unicode}.

Lemma gained_count (tl : str) (kws : list str) :
  gained (fun k => count k tl) tl kws = sum (map (fun k => count k tl) kws).
Proof.
  unfold gained. f_equal. apply map_ext. intros k.
  destruct (contains k tl) eqn:E; [reflexivity|].
  symmetry. apply contains_false_count. exact E.
Qed.

Lemma subject_scores_eq (text : str) :
  subject_scores text
  = flat_map (fun e => entry_of (fst e) (occurrences text (snd e))) subject_keywords.
Proof.
  unfold subject_scores. rewrite score_keywords_eq.
  - rewrite app_nil_l. apply flat_map_ext_In. intros e _.
    rewrite gained_count. reflexivity.
  - intros w Hw. apply contains_count_pos. exact Hw.
  - apply NoDup_keys_subject.
  - intros k _ [].
Qed.

Lemma occurrences_nonneg (text : str) (kws : list str) : 0 <= occurrences text kws.
Proof.
  unfold occurrences. induction kws as [|k kws IH]; simpl map.
  - rewrite sum_nil. lia.
  - rewrite sum_cons. pose proof (count_nonneg k (lower text)). lia.
Qed.

(** C1. [detect_subject] scores a category by the occurrences of its
    keywords in the lowercased text.  When no category has an
    occurrence it returns 'общий'.  Otherwise it returns a category of
    the greatest score, every category before it in the lexicon has a
    strictly smaller score, and [scores] holds that score for it.  For a
    text where 'функция', 'код' and 'алгоритм' occur five times each and
    no other keyword occurs, it returns 'программирование', whose score
    is 15. *)
Theorem detect_subject_spec (text : str) :
  ((forall e, In e subject_keywords -> occurrences text (snd e) = 0) ->
   detect_subject text = Some general) /\
  ((exists e, In e subject_keywords /\ occurrences text (snd e) <> 0) ->
   exists pre e post,
     subject_keywords = pre ++ e :: post /\
     detect_subject text = Some (fst e) /\
     get (fst e) (subject_scores text) = Some (occurrences text (snd e)) /\
     Forall (fun e' => occurrences text (snd e') < occurrences text (snd e)) pre /\
     Forall (fun e' => occurrences text (snd e') <= occurrences text (snd e)) post) /\
  (Forall (fun k => count k (lower text) = if mem k example_keywords then 5 else 0)
          (concat (map snd subject_keywords)) ->
   detect_subject text = Some (u "программирование") /\
   get (u "программирование") (subject_scores text) = Some 15).
Proof.
  split; [|split].
  - intros H. unfold detect_subject. rewrite subject_scores_eq.
    replace (flat_map _ subject_keywords) with (@nil (str * Z)); [reflexivity|].
    symmetry. apply flat_map_nil_iff. intros e He. rewrite (H e He). reflexivity.
  - intros (e0 & He0 & Hne).
    unfold detect_subject.
    pose proof (subject_scores_eq text) as Es.
    assert (Hsc : subject_scores text <> []).
    { rewrite Es. intros N.
      pose proof (proj1 (flat_map_nil_iff _ _) N e0 He0) as N0. clear N.
      rename N0 into N. unfold entry_of in N.
      pose proof (occurrences_nonneg text (snd e0)).
      rewrite Z.gtb_ltb in N. destruct (Z.ltb_spec 0 (occurrences text (snd e0)));
        [discriminate | lia]. }
    rewrite (truthy_nonempty _ Hsc). cbn [negb].
    destruct (max_key_first (subject_scores text) Hsc)
      as (pre & k & v & post & E & M & P1 & P2).
    rewrite Es in E.
    destruct (flat_map_entry_split (fun e => occurrences text (snd e)) _ _ _ _ _ E)
      as (lpre & e & lpost & L & K & V & Pv & A & B).
    exists lpre, e, lpost. subst k v.
    split; [exact L|]. split; [exact M|]. split; [|split].
    + rewrite Es, E. rewrite get_app_absent.
      * simpl. rewrite str_eqb_refl. reflexivity.
      * rewrite A. intros Hin. apply keys_entries in Hin.
        pose proof NoDup_keys_subject as Nd. rewrite L in Nd.
        unfold keys in Nd. rewrite map_app in Nd. simpl in Nd.
        apply NoDup_remove_2 in Nd. apply Nd. apply in_or_app. left. exact Hin.
    + rewrite A in P1.
      apply (Forall_entries (fun e => occurrences text (snd e))
               (fun z => z < occurrences text (snd e))) in P1; [exact P1|].
      intros; lia.
    + rewrite B in P2.
      apply (Forall_entries (fun e => occurrences text (snd e))
               (fun z => z <= occurrences text (snd e))) in P2; [exact P2|].
      intros; lia.
  - intros H.
    assert (Es : subject_scores text
                 = flat_map (fun e => entry_of (fst e)
                     (sum (map (fun k => if mem k example_keywords then 5 else 0) (snd e))))
                     subject_keywords).
    { rewrite subject_scores_eq. apply flat_map_ext_In. intros e He.
      unfold occurrences. f_equal. f_equal. apply map_ext_in. intros k Hk.
      rewrite Forall_forall in H. apply H.
      apply in_concat. exists (snd e). split; [apply in_map; exact He | exact Hk]. }
    unfold detect_subject. rewrite Es. vm_compute. split; reflexivity.
Qed.

End DetectSubject.

Lemma detect_subject_spec_witness :
  detect_subject (U := basic_unicode) [] = Some general /\
  (exists pre e post,
     subject_keywords = pre ++ e :: post /\
     detect_subject (U := basic_unicode) five_times_text = Some (fst e) /\
     get (fst e) (subject_scores (U := basic_unicode) five_times_text)
     = Some (occurrences (U := basic_unicode) five_times_text (snd e)) /\
     Forall (fun e' => occurrences (U := basic_unicode) five_times_text (snd e')
                       < occurrences (U := basic_unicode) five_times_text (snd e)) pre /\
     Forall (fun e' => occurrences (U := basic_unicode) five_times_text (snd e')
                       <= occurrences (U := basic_unicode) five_times_text (snd e)) post) /\
  detect_subject (U := basic_unicode) five_times_text = Some (u "программирование") /\
  get (u "программирование") (subject_scores (U := basic_unicode) five_times_text) = Some 15.
Proof.
  split; [|split].
  - apply (proj1 (detect_subject_spec (U := basic_unicode) [])).
    apply Forall_forall.
    apply (Forall_Zeqb (fun e => occurrences (U := basic_unicode) [] (snd e)) (fun _ => 0)).
    vm_compute. reflexivity.
  - apply (proj1 (proj2 (detect_subject_spec (U := basic_unicode) five_times_text))).
    exists (u "программирование",
            [u "код"; u "функция"; u "переменная"; u "класс"; u "объект";
             u "алгоритм"; u "программа"]).
    split; [left; reflexivity | vm_compute; discriminate].
  - apply (proj2 (proj2 (detect_subject_spec (U := basic_unicode) five_times_text))).
    apply (Forall_Zeqb (fun k => count k (lower (Unicode := basic_unicode) five_times_text))
                       (fun k => if mem k example_keywords then 5 else 0)).
    vm_compute. reflexivity.
Defined.

(** ** Dictionaries as finite maps *)

Lemma get_None (k : str) (d : dict) : get k d = None <-> ~ In k (keys d).
Proof.
  induction d as [|[k' v] d IH]; simpl.
  - split; [intros _ [] | reflexivity].
  - destruct (str_eqb k k') eqn:E.
    + apply str_eqb_eq in E. subst. split; [discriminate | intros H; exfalso; apply H; auto].
    + rewrite IH. split.
      * intros H [H1|H1]; [subst; rewrite str_eqb_refl in E; discriminate | auto].
      * intros H H1. apply H. right. exact H1.
Qed.

Lemma get_In (k : str) (v : Z) (d : dict) : get k d = Some v -> In (k, v) d.
Proof.
  induction d as [|[k' w] d IH]; simpl; [discriminate|].
  destruct (str_eqb k k') eqn:E.
  - apply str_eqb_eq in E. subst. intros H; inversion H; auto.
  - intros H. right. apply IH. exact H.
Qed.

Lemma get_app (k : str) (d1 d2 : dict) :
  get k (d1 ++ d2) = match get k d1 with Some v => Some v | None => get k d2 end.
Proof.
  induction d1 as [|[k' w] d IH]; simpl; [reflexivity|].
  destruct (str_eqb k k'); [reflexivity | exact IH].
Qed.

Lemma get_add_same (k : str) (n : Z) (d : dict) :
  get k (add k n d) = Some (match get k d with Some v => v + n | None => n end).
Proof.
  induction d as [|[k' w] d IH]; simpl.
  - rewrite str_eqb_refl. reflexivity.
  - destruct (str_eqb k k') eqn:E; simpl; rewrite E; [reflexivity | exact IH].
Qed.

Lemma get_add_other (k k0 : str) (n : Z) (d : dict) :
  k0 <> k -> get k0 (add k n d) = get k0 d.
Proof.
  intros N. induction d as [|[k' w] d IH]; simpl.
  - rewrite str_eqb_neq by assumption. reflexivity.
  - destruct (str_eqb k k') eqn:E; simpl.
    + apply str_eqb_eq in E. subst k'.
      rewrite str_eqb_neq by assumption. reflexivity.
    + rewrite IH. reflexivity.
Qed.

Lemma keys_add (k : str) (n : Z) (d : dict) :
  keys (add k n d) = if mem k (keys d) then keys d else keys d ++ [k].
Proof.
  induction d as [|[k' w] d IH]; simpl; [reflexivity|].
  destruct (str_eqb k k') eqn:E; simpl.
  - reflexivity.
  - rewrite IH. unfold mem. destruct (existsb (str_eqb k) (keys d)); reflexivity.
Qed.

Lemma NoDup_keys_add (k : str) (n : Z) (d : dict) :
  NoDup (keys d) -> NoDup (keys (add k n d)).
Proof.
  intros H. rewrite keys_add. destruct (mem k (keys d)) eqn:E; [assumption|].
  apply NoDup_app; [assumption | repeat constructor; intros [] | ].
  intros x Hx [<-|[]]. apply mem_In in Hx. congruence.
Qed.

(** Two dictionaries without repeated keys that answer every [get] alike
    hold the same entries. *)
Lemma dict_perm (d1 : dict) : forall d2 : dict,
  NoDup (keys d1) -> NoDup (keys d2) ->
  (forall k, get k d1 = get k d2) -> Permutation d1 d2.
Proof.
  induction d1 as [|[k v] d1 IH]; intros d2 N1 N2 G.
  - destruct d2 as [|[k v] d2]; [constructor|].
    specialize (G k). simpl in G. rewrite str_eqb_refl in G. discriminate.
  - assert (Gk : get k d2 = Some v).
    { rewrite <- G. simpl. rewrite str_eqb_refl. reflexivity. }
    apply get_In in Gk. apply in_split in Gk. destruct Gk as (l1 & l2 & ->).
    apply Permutation_cons_app. inversion N1 as [|? ? Hk N1']; subst.
    unfold keys in N2. rewrite map_app in N2. simpl in N2.
    pose proof (NoDup_remove_1 _ _ _ N2) as N2'.
    pose proof (NoDup_remove_2 _ _ _ N2) as Hk2.
    apply IH; [assumption | unfold keys; rewrite map_app; assumption |].
    intros k0. specialize (G k0). simpl in G.
    rewrite get_app in G. simpl in G. rewrite get_app.
    destruct (str_eqb k0 k) eqn:E.
    + apply str_eqb_eq in E. subst k0.
      transitivity (@None Z).
      * apply get_None. exact Hk.
      * symmetry. rewrite <- get_app. apply get_None.
        unfold keys. rewrite map_app. exact Hk2.
    + exact G.
Qed.

Lemma NoDup_keys_entries (T : str * list str -> Z) (l : list (str * list str)) :
  NoDup (keys l) ->
  NoDup (keys (flat_map (fun e => entry_of (fst e) (T e)) l)).
Proof.
  induction l as [|[k kws] l IH]; intros N; [constructor|].
  inversion N as [|? ? Hk N']; subst.
  cbn [flat_map fst snd]. unfold entry_of at 1.
  destruct (T (k, kws) >? 0); [|apply IH; assumption].
  simpl. constructor; [|apply IH; assumption].
  intros Hin. apply keys_entries in Hin. contradiction.
Qed.

Lemma get_entries (T : str * list str -> Z) (l : list (str * list str)) (e : str * list str) :
  NoDup (keys l) -> In e l ->
  get (fst e) (flat_map (fun e => entry_of (fst e) (T e)) l)
  = if T e >? 0 then Some (T e) else None.
Proof.
  induction l as [|[k kws] l IH]; intros N He; [destruct He|].
  inversion N as [|? ? Hk N']; subst.
  cbn [flat_map fst snd]. rewrite get_app. destruct He as [<-|He].
  - cbn [fst snd]. unfold entry_of at 1. destruct (T (k, kws) >? 0) eqn:E.
    + simpl. rewrite str_eqb_refl. reflexivity.
    + simpl. apply get_None. intros Hin. apply keys_entries in Hin. contradiction.
  - assert (Hne : fst e <> k).
    { intros <-. apply Hk. apply in_map. exact He. }
    unfold entry_of at 1. destruct (T (k, kws) >? 0); simpl.
    + rewrite str_eqb_neq by assumption. apply IH; assumption.
    + apply IH; assumption.
Qed.

Lemma get_entries_outside (T : str * list str -> Z) (l : list (str * list str)) (k : str) :
  ~ In k (keys l) ->
  get k (flat_map (fun e => entry_of (fst e) (T e)) l) = None.
Proof.
  intros H. apply get_None. intros Hin. apply keys_entries in Hin. contradiction.
Qed.

Lemma flat_map_single {A B} (f : A -> list B) (l : list A) (e : A) :
  NoDup l -> In e l -> (forall x, In x l -> x <> e -> f x = []) ->
  flat_map f l = f e.
Proof.
  induction l as [|a l IH]; intros N He H; [destruct He|].
  inversion N as [|? ? Ha N']; subst. simpl. destruct He as [->|He].
  - replace (flat_map f l) with (@nil B); [apply app_nil_r|].
    symmetry. apply flat_map_nil_iff. intros x Hx. apply H; [right; exact Hx|].
    intros ->. contradiction.
  - rewrite (H a (or_introl eq_refl)) by (intros ->; contradiction).
    simpl. apply IH; auto. intros x Hx. apply H. right; exact Hx.
Qed.

(** ** The stable descending sort *)

Lemma insert_desc_perm x l : Permutation (insert_desc x l) (x :: l).
Proof.
  induction l as [|y l IH]; simpl; [reflexivity|].
  destruct (snd y >? snd x); [|reflexivity].
  rewrite IH. apply perm_swap.
Qed.

Lemma sorted_desc_perm l : Permutation (sorted_desc l) l.
Proof.
  induction l as [|x l IH]; simpl; [constructor|].
  rewrite insert_desc_perm. constructor. exact IH.
Qed.

Lemma sorted_desc_nil_iff l : sorted_desc l = [] <-> l = [].
Proof.
  split; intros H.
  - pose proof (sorted_desc_perm l) as P. rewrite H in P.
    apply Permutation_nil in P. exact P.
  - subst; reflexivity.
Qed.

Lemma StronglySorted_weaken {A} (R S : A -> A -> Prop) (l : list A) :
  (forall a b, R a b -> S a b) -> StronglySorted R l -> StronglySorted S l.
Proof.
  intros W H. induction H as [|a l H IH F]; constructor; [assumption|].
  eapply Forall_impl; [|exact F]. intros b. apply W.
Qed.

Lemma insert_desc_sorted (before : str * Z -> str * Z -> Prop) x l :
  Forall (before x) l ->
  StronglySorted (desc_then before) l ->
  StronglySorted (desc_then before) (insert_desc x l).
Proof.
  intros B H. induction H as [|y l H IH F]; simpl.
  - repeat constructor.
  - inversion B as [|? ? By Bl]; subst.
    rewrite Z.gtb_ltb. destruct (Z.ltb_spec (snd x) (snd y)) as [Hlt|Hge].
    + constructor; [apply IH; exact Bl|].
      rewrite (insert_desc_perm x l). constructor; [left; exact Hlt | exact F].
    + constructor; [constructor; assumption|].
      constructor.
      * destruct (Z.eq_dec (snd x) (snd y)) as [E|N]; [right; auto | left; lia].
      * rewrite Forall_forall in *. intros z Hz.
        specialize (F z Hz). specialize (Bl z Hz).
        destruct F as [F|[F _]];
          (destruct (Z.eq_dec (snd x) (snd z)) as [E|N]; [right; auto | left; lia]).
Qed.

(** [sorted] is stable: it orders by descending value and keeps the given
    order among equal values. *)
Lemma sorted_desc_stable (before : str * Z -> str * Z -> Prop) l :
  StronglySorted before l -> StronglySorted (desc_then before) (sorted_desc l).
Proof.
  intros H. induction H as [|x l H IH F]; simpl; [constructor|].
  apply insert_desc_sorted; [|exact IH].
  rewrite (sorted_desc_perm l). exact F.
Qed.

Lemma StronglySorted_trivial {A} (l : list A) : StronglySorted (fun _ _ => True) l.
Proof.
  induction l; constructor; [assumption|]. apply Forall_forall. auto.
Qed.

Lemma sorted_desc_sorted l : StronglySorted (fun a b => snd b <= snd a) (sorted_desc l).
Proof.
  apply (StronglySorted_weaken (desc_then (fun _ _ => True))).
  - intros a b [H|[H _]]; lia.
  - apply sorted_desc_stable. apply StronglySorted_trivial.
Qed.

(** ** [suggest_learning_style] *)

Ltac split_gtb :=
  repeat match goal with
         | |- context [?a >? ?b] => rewrite (Z.gtb_ltb a b); destruct (Z.ltb_spec b a)
         | H : context [?a >? ?b] |- _ =>
           rewrite (Z.gtb_ltb a b) in H; destruct (Z.ltb_spec b a)
         end.

Lemma names_differ :
  visual <> practical /\ auditory <> practical /\ auditory <> visual.
Proof. repeat split; intros H; vm_compute in H; discriminate H. Qed.

Section LearningStyle.
Context {U : Unicode}.

Lemma gained_present (text : str) (kws : list str) :
  gained (fun _ => 1) (lower text) kws = present text kws.
Proof.
  unfold gained, present. induction kws as [|k kws IH]; [reflexivity|].
  simpl map. rewrite sum_cons. simpl filter.
  destruct (contains k (lower text)); rewrite IH; [rewrite len_cons|]; lia.
Qed.

Lemma present_nonneg (text : str) (kws : list str) : 0 <= present text kws.
Proof. apply len_nonneg. Qed.

(** The [scores] before the two bonuses. *)
Lemma keyword_scores_eq (text : str) :
  score_keywords (fun _ => 1) (lower text) learning_styles []
  = flat_map (fun e => entry_of (fst e) (present text (snd e))) learning_styles.
Proof.
  rewrite score_keywords_eq.
  - rewrite app_nil_l. apply flat_map_ext_In. intros e _.
    rewrite gained_present. reflexivity.
  - intros; lia.
  - apply NoDup_keys_styles.
  - intros k _ [].
Qed.

Lemma style_scores_unfold (text : str) :
  style_scores text
  = let base := flat_map (fun e => entry_of (fst e) (present text (snd e))) learning_styles in
    let s1 := if code_marker text then add practical 5 base else base in
    if bullet_lines text >? 3 then add visual 3 s1 else s1.
Proof.
  unfold style_scores. rewrite keyword_scores_eq. reflexivity.
Qed.

Lemma NoDup_keys_style_scores (text : str) : NoDup (keys (style_scores text)).
Proof.
  rewrite style_scores_unfold. cbv zeta.
  pose proof (NoDup_keys_entries (fun e => present text (snd e)) learning_styles NoDup_keys_styles) as N.
  destruct (bullet_lines text >? 3), (code_marker text);
    repeat apply NoDup_keys_add; exact N.
Qed.

Lemma get_two_bonuses (base : dict) (kp kv k : str) (cm bl : bool) :
  get k (if bl then add kv 3 (if cm then add kp 5 base else base)
         else if cm then add kp 5 base else base)
  = match get k base with
    | Some v => Some (v + (if str_eqb k kp && cm then 5 else 0)
                        + (if str_eqb k kv && bl then 3 else 0))
    | None => if (str_eqb k kp && cm) || (str_eqb k kv && bl)
              then Some ((if str_eqb k kp && cm then 5 else 0)
                         + (if str_eqb k kv && bl then 3 else 0))
              else None
    end.
Proof.
  destruct (str_eqb k kp) eqn:Ep; destruct (str_eqb k kv) eqn:Ev;
    try (apply str_eqb_eq in Ep; subst kp);
    try (apply str_eqb_eq in Ev; subst kv);
    try (assert (Np : k <> kp) by (intros ->; rewrite str_eqb_refl in Ep; discriminate));
    try (assert (Nv : k <> kv) by (intros ->; rewrite str_eqb_refl in Ev; discriminate));
    destruct bl; destruct cm; cbn [andb orb];
      rewrite ?get_add_same, ?get_add_other by assumption;
      rewrite ?get_add_same, ?get_add_other by assumption;
      destruct (get k base); try reflexivity; f_equal; lia.
Qed.

Lemma style_scores_get (text : str) (e : str * list str) :
  In e learning_styles ->
  get (fst e) (style_scores text)
  = if style_points text e >? 0 then Some (style_points text e) else None.
Proof.
  intros He. rewrite style_scores_unfold. cbv zeta.
  pose proof (get_entries (fun e => present text (snd e)) learning_styles e NoDup_keys_styles He) as G.
  pose proof (present_nonneg text (snd e)) as P.
  rewrite get_two_bonuses. rewrite G. unfold style_points.
  destruct (str_eqb (fst e) practical && code_marker text);
    destruct (str_eqb (fst e) visual && (bullet_lines text >? 3));
    cbn [orb]; split_gtb; try lia; f_equal; lia.
Qed.

Lemma style_scores_get_outside (text : str) (k : str) :
  ~ In k (keys learning_styles) -> get k (style_scores text) = None.
Proof.
  intros H. rewrite style_scores_unfold. cbv zeta.
  assert (Hv : str_eqb k visual = false).
  { apply str_eqb_neq. intros ->. apply H. vm_compute. auto. }
  assert (Hp : str_eqb k practical = false).
  { apply str_eqb_neq. intros ->. apply H. vm_compute. auto. }
  rewrite get_two_bonuses, Hv, Hp. cbn [andb orb].
  rewrite get_entries_outside by exact H. reflexivity.
Qed.

(** [scores] holds exactly the styles of positive score, each once. *)
Lemma style_scores_perm (text : str) :
  Permutation (style_scores text)
              (flat_map (fun e => entry_of (fst e) (style_points text e)) learning_styles).
Proof.
  apply dict_perm.
  - apply NoDup_keys_style_scores.
  - apply NoDup_keys_entries. apply NoDup_keys_styles.
  - intros k. destruct (in_dec (list_eq_dec Z.eq_dec) k (keys learning_styles)) as [Hin|Hout].
    + unfold keys in Hin. apply in_map_iff in Hin. destruct Hin as (e & <- & He).
      rewrite style_scores_get by exact He.
      rewrite (get_entries (style_points text)) by (exact He || apply NoDup_keys_styles).
      reflexivity.
    + rewrite style_scores_get_outside by exact Hout.
      rewrite get_entries_outside by exact Hout. reflexivity.
Qed.

Lemma style_points_nonneg (text : str) (e : str * list str) : 0 <= style_points text e.
Proof.
  unfold style_points. pose proof (present_nonneg text (snd e)).
  destruct (str_eqb (fst e) practical && code_marker text);
    destruct (str_eqb (fst e) visual && (bullet_lines text >? 3)); lia.
Qed.

Lemma style_scores_empty (text : str) :
  (forall e, In e learning_styles -> style_points text e = 0) -> style_scores text = [].
Proof.
  intros H. apply Permutation_nil. symmetry.
  rewrite style_scores_perm.
  replace (flat_map _ learning_styles) with (@nil (str * Z)); [reflexivity|].
  symmetry. apply flat_map_nil_iff. intros e He. rewrite (H e He). reflexivity.
Qed.

Lemma style_scores_nonempty (text : str) :
  (exists e, In e learning_styles /\ style_points text e <> 0) -> style_scores text <> [].
Proof.
  intros (e & He & Hp) E.
  pose proof (style_scores_get text e He) as G. rewrite E in G. simpl in G.
  pose proof (style_points_nonneg text e).
  split_gtb; [discriminate | lia].
Qed.

(** C10.  Some text is answered with a single style.  Whenever exactly
    one style has a nonzero score the result is that style alone, since a
    style of score zero has no entry in [scores]; such is a text with more
    than three bullet lines, no style keyword and no code marker. *)
Theorem single_style_ranking (text : str) :
  (exists t, suggest_learning_style (U := basic_unicode) t = [visual]) /\
  (forall e, In e learning_styles -> style_points text e = 0 ->
             get (fst e) (style_scores text) = None) /\
  (forall e, In e learning_styles -> style_points text e <> 0 ->
             (forall e', In e' learning_styles -> e' <> e -> style_points text e' = 0) ->
             suggest_learning_style text = [fst e]) /\
  (bullet_lines text > 3 -> code_marker text = false ->
   (forall e, In e learning_styles -> present text (snd e) = 0) ->
   suggest_learning_style text = [visual]).
Proof.
  assert (One : forall e, In e learning_styles -> style_points text e <> 0 ->
             (forall e', In e' learning_styles -> e' <> e -> style_points text e' = 0) ->
             suggest_learning_style text = [fst e]).
  { intros e He Hp Hz.
    assert (Es : style_scores text = [(fst e, style_points text e)]).
    { apply Permutation_length_1_inv. symmetry. rewrite style_scores_perm.
      rewrite (flat_map_single _ learning_styles e).
      - unfold entry_of. pose proof (style_points_nonneg text e).
        split_gtb; [reflexivity | lia].
      - apply (NoDup_map_inv fst). apply NoDup_keys_styles.
      - exact He.
      - intros x Hx Hne. rewrite (Hz x Hx Hne). reflexivity. }
    unfold suggest_learning_style. rewrite Es. reflexivity. }
  split; [|split; [|split]].
  - exists bullets_text. vm_compute. reflexivity.
  - intros e He Hz. rewrite style_scores_get by exact He. rewrite Hz. reflexivity.
  - exact One.
  - intros Hb Hc Hk.
    apply (One (visual, [u "диаграмма"; u "схема"; u "график"; u "таблица";
                         u "рисунок"; u "изображение"])).
    + left. reflexivity.
    + unfold style_points. rewrite Hk by (left; reflexivity). rewrite Hc.
      replace (bullet_lines text >? 3) with true by (symmetry; apply Z.gtb_lt; lia).
      cbn [fst]. change (str_eqb visual visual) with true.
      rewrite andb_false_r. simpl. lia.
    + intros e' He' Hne. unfold style_points. rewrite Hk by exact He'. rewrite Hc.
      rewrite andb_false_r.
      unfold learning_styles in He'. cbn [In] in He'.
      destruct He' as [<-|[<-|[<-|[]]]].
      * exfalso. apply Hne. reflexivity.
      * cbn [fst]. change (str_eqb (u "аудиальный") visual) with false. reflexivity.
      * cbn [fst]. change (str_eqb (u "практический") visual) with false. reflexivity.
Qed.

End LearningStyle.

Lemma single_style_ranking_witness :
  suggest_learning_style (U := basic_unicode) bullets_text = [visual].
Proof.
  apply (proj2 (proj2 (proj2 (single_style_ranking (U := basic_unicode) bullets_text)))).
  - vm_compute. reflexivity.
  - vm_compute. reflexivity.
  - apply Forall_forall.
    apply (Forall_Zeqb (fun e => present (U := basic_unicode) bullets_text (snd e)) (fun _ => 0)).
    vm_compute. reflexivity.
Defined.

(** ** [re.findall] *)

Lemma last_or_cons (prev : option Z) (c : Z) (pre : str) :
  last_or prev (c :: pre) = last_or (Some c) pre.
Proof.
  unfold last_or. simpl rev. destruct (rev pre) as [|d l]; reflexivity.
Qed.

(** Every item of [findall] is a match of the pattern somewhere in the
    string, cut at the length the pattern reports. *)
Lemma findall_from_In (m : option Z -> str -> option nat) (s : str) :
  forall (prev : option Z) (skip : nat) (x : str),
    In x (findall_from m prev skip s) ->
    exists pre rest n,
      s = pre ++ rest /\ m (last_or prev pre) rest = Some n /\ x = firstn n rest.
Proof.
  induction s as [|c s IH]; intros prev skip x Hx; [destruct Hx|].
  assert (Tail : forall k, In x (findall_from m (Some c) k s) ->
            exists pre rest n,
              c :: s = pre ++ rest /\ m (last_or prev pre) rest = Some n /\
              x = firstn n rest).
  { intros k Hk. destruct (IH _ _ _ Hk) as (pre & rest & n & E & M & X).
    exists (c :: pre), rest, n. rewrite last_or_cons. subst s. auto. }
  cbn [findall_from] in Hx. destruct skip as [|k]; [|eapply Tail; exact Hx].
  destruct (m prev (c :: s)) as [n|] eqn:M; [|eapply Tail; exact Hx].
  destruct Hx as [<-|Hx]; [|eapply Tail; exact Hx].
  exists [], (c :: s), n. auto.
Qed.

Lemma findall_In (m : option Z -> str -> option nat) (s x : str) :
  In x (findall m s) ->
  exists pre rest n,
    s = pre ++ rest /\ m (last_or None pre) rest = Some n /\ x = firstn n rest.
Proof. apply findall_from_In. Qed.

(** ** [extract_questions] *)

Lemma body_run_firstn (r : str) :
  Forall (fun d => is_sentence_end d = false) (firstn (body_run r) r) /\
  length (firstn (body_run r) r) = body_run r.
Proof.
  induction r as [|d r [IH1 IH2]]; simpl; [split; [constructor | reflexivity]|].
  destruct (is_sentence_end d) eqn:E; simpl.
  - split; [constructor | reflexivity].
  - split; [constructor; assumption | f_equal; exact IH2].
Qed.

(** What the pattern of [extract_questions] matches. *)
Lemma question_shape (p : option Z) (rest : str) (n : nat) :
  question p rest = Some n ->
  exists c body tail,
    rest = c :: body ++ 63 :: tail /\ is_upper_letter c = true /\
    Forall (fun d => is_sentence_end d = false) body /\
    firstn n rest = c :: body ++ [63] /\ n = (length body + 2)%nat.
Proof.
  destruct rest as [|c r]; [discriminate|]. unfold question.
  destruct (is_upper_letter c) eqn:Eu; [|discriminate].
  destruct (skipn (body_run r) r) as [|d tail] eqn:Es; [discriminate|].
  destruct (Z.eqb_spec d 63) as [->|]; [|discriminate].
  intros H. inversion H; subst n. clear H.
  destruct (body_run_firstn r) as [F L].
  exists c, (firstn (body_run r) r), tail.
  assert (Er : r = firstn (body_run r) r ++ 63 :: tail).
  { rewrite <- Es. symmetry. apply firstn_skipn. }
  split; [congruence|]. split; [exact Eu|]. split; [exact F|]. split.
  - replace (body_run r + 2)%nat with (S (body_run r + 1)) by lia.
    cbn [firstn]. f_equal. rewrite Er at 2.
    rewrite <- L at 1. rewrite firstn_app_2. reflexivity.
  - rewrite L. reflexivity.
Qed.

Lemma In_firstn {A} (n : nat) (l : list A) (x : A) : In x (firstn n l) -> In x l.
Proof.
  revert l. induction n as [|n IH]; intros l H; [destruct H|].
  destruct l as [|a l]; [destruct H|].
  destruct H as [H|H]; [left; exact H | right; apply IH; exact H].
Qed.

(** X1.  [extract_questions] returns at most five strings.  Each of them
    is a piece of the text made of a capital letter of [[А-ЯA-Z]], then
    characters none of which is [.], [!] or [?], then one [?]. *)
Theorem extract_questions_shape (text : str) :
  (length (extract_questions text) <= 5)%nat /\
  forall q, In q (extract_questions text) ->
    exists pre c body post,
      text = pre ++ q ++ post /\ q = c :: body ++ [63] /\
      is_upper_letter c = true /\
      Forall (fun d => is_sentence_end d = false) body.
Proof.
  split; [apply firstn_le_length|].
  intros q Hq. unfold extract_questions in Hq. apply In_firstn in Hq.
  destruct (findall_In _ _ _ Hq) as (pre & rest & n & Et & M & Eq).
  destruct (question_shape _ _ _ M) as (c & body & tail & Er & Eu & F & Ef & _).
  exists pre, c, body, tail. rewrite Eq, Ef.
  split; [|auto]. rewrite Et, Er. cbn [app]. rewrite <- app_assoc. reflexivity.
Qed.

Lemma extract_questions_shape_witness :
  exists pre c body post,
    questions_text = pre ++ u "Why not?" ++ post /\ u "Why not?" = c :: body ++ [63] /\
    is_upper_letter c = true /\
    Forall (fun d => is_sentence_end d = false) body.
Proof.
  apply (proj2 (extract_questions_shape questions_text)).
  vm_compute. right. left. reflexivity.
Defined.

Lemma count_single_cons (c x : Z) (s : str) :
  count [c] (x :: s) = (if x =? c then 1 else 0) + count [c] s.
Proof.
  unfold count. cbn [count_from].
  change (startswith [c] (x :: s)) with ((c =? x) && true).
  change (length [c] - 1)%nat with O.
  rewrite andb_true_r, (Z.eqb_sym c x). destruct (x =? c); lia.
Qed.

Lemma count_single_app (c : Z) (a b : str) : count [c] (a ++ b) = count [c] a + count [c] b.
Proof.
  induction a as [|x a IH]; [reflexivity|].
  cbn [app]. rewrite !count_single_cons, IH. lia.
Qed.

Lemma matches_bounded_by_marks (s : str) : forall (prev : option Z) (skip : nat),
  len (findall_from question prev skip s) <= count [63] (skipn skip s).
Proof.
  induction s as [|c s IH]; intros prev skip.
  - destruct skip; reflexivity.
  - cbn [findall_from]. destruct skip as [|k]; [|apply IH].
    cbn [skipn]. rewrite count_single_cons.
    destruct (question prev (c :: s)) as [n|] eqn:M.
    + destruct (question_shape _ _ _ M) as (c' & body & tail & Er & _ & _ & _ & En).
      inversion Er; subst c' s n. rewrite len_cons.
      replace (length body + 2 - 1)%nat with (length body + 1)%nat by lia.
      specialize (IH (Some c) (length body + 1)%nat).
      rewrite skipn_app in IH. rewrite skipn_all2 in IH by lia.
      replace (length body + 1 - length body)%nat with 1%nat in IH by lia.
      cbn [app skipn] in IH.
      rewrite count_single_app, count_single_cons.
      change (63 =? 63) with true. cbv iota.
      pose proof (count_nonneg [63] body). destruct (c =? 63); lia.
    + specialize (IH (Some c) O). cbn [skipn] in IH. destruct (c =? 63); lia.
Qed.

(** X2.  [extract_questions] never returns more strings than the text has
    question marks; a text without [?] has no question. *)
Theorem extract_questions_bounded (text : str) :
  len (extract_questions text) <= count [63] text /\
  (count [63] text = 0 -> extract_questions text = []).
Proof.
  assert (B : len (extract_questions text) <= count [63] text).
  { pose proof (matches_bounded_by_marks text None O) as H. cbn [skipn] in H.
    fold (findall question text) in H.
    unfold extract_questions. cbv zeta.
    unfold len at 1. unfold len at 1 in H. rewrite length_firstn. lia. }
  split; [exact B|]. intros Z0. rewrite Z0 in B.
  destruct (extract_questions text); [reflexivity|]. rewrite len_cons in B.
  pose proof (len_nonneg l). lia.
Qed.

Lemma extract_questions_bounded_witness : extract_questions (u "No question. None!") = [].
Proof.
  apply (proj2 (extract_questions_bounded (u "No question. None!"))).
  vm_compute. reflexivity.
Defined.

(** ** Labels and prerequisites *)

Lemma max_key_In (d : dict) (k : str) : max_key d = Some k -> In k (keys d).
Proof.
  intros M. destruct d as [|kv d]; [discriminate|].
  destruct (max_key_first (kv :: d)) as (pre & k' & v & post & E & M' & _);
    [discriminate|].
  rewrite M in M'. inversion M'; subst k'. rewrite E.
  unfold keys. rewrite map_app. apply in_or_app. right. left. reflexivity.
Qed.

Lemma lookup_Some_In {A} (k : str) (d : list (str * A)) :
  In k (keys d) -> exists v, lookup k d = Some v /\ In (k, v) d.
Proof.
  induction d as [|[k' v] d IH]; simpl; [intros []|].
  intros H. destruct (str_eqb k k') eqn:E.
  - apply str_eqb_eq in E. subst k'. exists v. auto.
  - destruct H as [H|H]; [subst; rewrite str_eqb_refl in E; discriminate|].
    destruct (IH H) as (w & L & I). exists w. auto.
Qed.

Lemma lookup_None {A} (k : str) (d : list (str * A)) :
  ~ In k (keys d) -> lookup k d = None.
Proof.
  induction d as [|[k' v] d IH]; simpl; [reflexivity|].
  intros H. rewrite str_eqb_neq by (intros ->; apply H; auto).
  apply IH. intros I. apply H. auto.
Qed.

Lemma lookup_In {A} (k : str) (v : A) (d : list (str * A)) :
  lookup k d = Some v -> In (k, v) d.
Proof.
  induction d as [|[k' w] d IH]; simpl; [discriminate|].
  destruct (str_eqb k k') eqn:E.
  - apply str_eqb_eq in E. subst. intros H; inversion H; auto.
  - intros H. right. apply IH. exact H.
Qed.

Lemma subject_tables_agree : keys prerequisites_map = keys subject_keywords.
Proof. vm_compute. reflexivity. Qed.

Lemma general_not_subject : ~ In general (keys subject_keywords).
Proof. vm_compute. intuition discriminate. Qed.

Section Labels.
Context {U : Unicode}.

Lemma detect_subject_in_lexicon (text s : str) :
  detect_subject text = Some s -> s = general \/ In s (keys subject_keywords).
Proof.
  unfold detect_subject. destruct (subject_scores text) as [|kv d] eqn:E.
  - intros H. inversion H. left. reflexivity.
  - cbn [truthy negb]. intros M. right. apply max_key_In in M.
    rewrite <- E, subject_scores_eq in M. apply keys_entries in M. exact M.
Qed.

(** X3.  [detect_subject] never fails: [max] is applied to [scores] only
    when it is not empty.  Its answer is 'общий' or one of the seven
    category names of the lexicon, and a category name is answered only
    when [scores] holds an entry for it. *)
Theorem detect_subject_label (text : str) :
  exists s, detect_subject text = Some s /\
            ((s = general /\ subject_scores text = []) \/
             (In s (keys subject_keywords) /\ In s (keys (subject_scores text)))).
Proof.
  unfold detect_subject. destruct (subject_scores text) as [|kv d] eqn:E.
  - exists general. split; [reflexivity | left; split; reflexivity].
  - cbn [truthy negb]. destruct (max_key (kv :: d)) as [k|] eqn:M; [|discriminate M].
    exists k. split; [reflexivity|]. right.
    pose proof (max_key_In _ _ M) as I. split; [|exact I].
    rewrite <- E in I. rewrite subject_scores_eq in I.
    apply keys_entries in I. exact I.
Qed.

Lemma prerequisites_sizes (subject : str) (l : list str) :
  lookup subject prerequisites_map = Some l -> (1 <= length l <= 3)%nat.
Proof.
  intros L. apply lookup_In in L.
  assert (F : forallb (fun e : str * list str =>
                         (1 <=? length (snd e))%nat && (length (snd e) <=? 3)%nat)
                      prerequisites_map = true) by (vm_compute; reflexivity).
  rewrite forallb_forall in F. specialize (F _ L). cbn [snd] in F.
  apply andb_true_iff in F. destruct F as [F1 F2].
  apply Nat.leb_le in F1. apply Nat.leb_le in F2. lia.
Qed.

(** X4.  [identify_prerequisites] returns between one and four items: the
    list of the subject, or the two generic items for a subject the table
    does not know, with at most one item put in front.  The subject
    answered by [detect_subject] is known to the table unless it is
    'общий'. *)
Theorem identify_prerequisites_bounds (text subject : str) :
  (1 <= length (identify_prerequisites text subject) <= 4)%nat /\
  (exists head base,
     identify_prerequisites text subject = head ++ base /\ (length head <= 1)%nat /\
     match lookup subject prerequisites_map with
     | Some l => base = l
     | None => base = [u "Базовая грамотность"; u "Желание учиться"]
     end) /\
  (forall s, detect_subject text = Some s ->
     (s = general /\ lookup s prerequisites_map = None) \/
     (s <> general /\ exists l, lookup s prerequisites_map = Some l)).
Proof.
  split; [|split].
  - unfold identify_prerequisites.
    pose proof (prerequisites_sizes subject) as B.
    destruct (lookup subject prerequisites_map) as [l|];
      [specialize (B l eq_refl)|]; destruct (existsb _ advanced_keywords);
      cbn [length]; lia.
  - unfold identify_prerequisites.
    destruct (lookup subject prerequisites_map) as [l|];
      destruct (existsb _ advanced_keywords).
    + exists [u "Средний уровень знаний в " ++ subject], l. cbn [length app]. auto.
    + exists [], l. cbn [length app]. auto.
    + exists [u "Средний уровень знаний в " ++ subject],
             [u "Базовая грамотность"; u "Желание учиться"]. cbn [length app]. auto.
    + exists [], [u "Базовая грамотность"; u "Желание учиться"]. cbn [length app]. auto.
  - intros s Hs. destruct (detect_subject_in_lexicon text s Hs) as [G|I].
    + left. split; [exact G|]. rewrite G. apply lookup_None.
      rewrite subject_tables_agree. apply general_not_subject.
    + right. split.
      * intros ->. apply general_not_subject. exact I.
      * rewrite <- subject_tables_agree in I.
        destruct (lookup_Some_In _ _ I) as (l & L & _). exists l. exact L.
Qed.

End Labels.

Lemma identify_prerequisites_bounds_witness :
  (u "программирование" = general /\
   lookup (u "программирование") prerequisites_map = None) \/
  (u "программирование" <> general /\
   exists l, lookup (u "программирование") prerequisites_map = Some l).
Proof.
  apply (proj2 (proj2 (identify_prerequisites_bounds (U := basic_unicode)
                         five_times_text (u "unknown")))).
  vm_compute. reflexivity.
Defined.

(** ** [calculate_engagement_score] *)

Lemma split_char_nonempty (c : Z) (s : str) : split_char c s <> [].
Proof.
  destruct s as [|x s]; simpl; [discriminate|].
  destruct (x =? c); [discriminate|]. destruct (split_char c s); discriminate.
Qed.

Lemma sum_const_nonneg {A} (l : list A) : 0 <= sum (map (fun _ => 2) l).
Proof.
  induction l as [|a l IH]; simpl map; [rewrite sum_nil; lia | rewrite sum_cons; lia].
Qed.

Lemma len_pos {A} (l : list A) : l <> [] -> 0 < len l.
Proof. destruct l; [congruence|]. intros _. rewrite len_cons. pose proof (len_nonneg l). lia. Qed.

Section Engagement.
Context {U : Unicode}.

(** X5.  [calculate_engagement_score] never fails: [split] yields at
    least one fragment, so the average is never taken over nothing.  The
    score is between 40 and 100: only the long-sentence penalty lowers the
    base of 50, so the lower clamp at 0 is never reached. *)
Theorem engagement_total (text : str) :
  exists e, calculate_engagement_score text = Some e /\ 40 <= e <= 100.
Proof.
  unfold calculate_engagement_score.
  pose proof (split_char_nonempty 46 text) as Hs.
  rewrite (truthy_nonempty _ Hs).
  unfold int_truediv.
  destruct (Z.eqb_spec (len (split_char 46 text)) 0) as [E|_];
    [pose proof (len_pos _ Hs); lia|].
  pose proof (sum_const_nonneg
                (filter (fun word => contains word (lower text)) engaging_words)) as H1.
  pose proof (count_nonneg [63] text) as H2.
  pose proof (len_nonneg (findall (bullet_line [45; 42; 8226]) text)) as H3.
  eexists. split; [reflexivity|].
  destruct (contains (u "например") (lower text) || contains (u "пример") (lower text));
    destruct (num_lt _ _); lia.
Qed.

End Engagement.

(** ** [split] and [strip] *)

Lemma split_char_no_sep (c : Z) (s : str) :
  Forall (fun f => ~ In c f) (split_char c s).
Proof.
  induction s as [|x s IH]; simpl.
  - constructor; [intros [] | constructor].
  - destruct (Z.eqb_spec x c) as [->|N].
    + constructor; [intros [] | exact IH].
    + destruct (split_char c s) as [|f fs].
      * constructor; [|constructor]. intros [H|[]]. congruence.
      * inversion IH as [|? ? Hf Hfs]; subst. constructor; [|exact Hfs].
        intros [H|H]; [congruence | contradiction].
Qed.

Lemma lstrip_In (s : str) (x : Z) : In x (lstrip s) -> In x s.
Proof.
  induction s as [|c s IH]; simpl; [auto|].
  destruct (is_space c); [intros H; right; apply IH; exact H | auto].
Qed.

Lemma lstrip_head (s : str) (c : Z) (r : str) : lstrip s = c :: r -> is_space c = false.
Proof.
  induction s as [|d s IH]; simpl; [discriminate|].
  destruct (is_space d) eqn:E; [exact IH|]. intros H; inversion H; subst. exact E.
Qed.

Lemma lstrip_suffix (s : str) : exists pre, s = pre ++ lstrip s.
Proof.
  induction s as [|d s [pre IH]]; simpl; [exists []; reflexivity|].
  destruct (is_space d); [exists (d :: pre); simpl; f_equal; exact IH | exists []; reflexivity].
Qed.

Lemma strip_In (s : str) (x : Z) : In x (strip s) -> In x s.
Proof.
  unfold strip. intros H. apply in_rev in H. apply lstrip_In in H.
  apply in_rev in H. apply lstrip_In in H. exact H.
Qed.

(** A stripped string neither starts nor ends with whitespace. *)
Lemma strip_ends (s : str) :
  (forall c r, strip s = c :: r -> is_space c = false) /\
  (forall c r, strip s = r ++ [c] -> is_space c = false).
Proof.
  unfold strip. set (t := lstrip s). set (w := lstrip (rev t)). split.
  - intros c r H.
    destruct (lstrip_suffix (rev t)) as [pre E]. fold w in E.
    assert (Et : t = rev w ++ rev pre).
    { rewrite <- rev_app_distr, <- E, rev_involutive. reflexivity. }
    rewrite H in Et. simpl in Et. apply (lstrip_head s c (r ++ rev pre)). exact Et.
  - intros c r H. assert (Ew : w = c :: rev r).
    { rewrite <- (rev_involutive w), H, rev_app_distr. reflexivity. }
    apply (lstrip_head (rev t) c (rev r)). exact Ew.
Qed.

(** ** [generate_flashcards] *)

Section Flashcards.
Context {U : Unicode}.

Lemma flashcard_for_eq (keyword : str) (sentences : list str) (cards : list flashcard) :
  flashcard_for keyword sentences cards
  = cards ++ match find (mentions keyword) sentences with
             | Some sentence => [card keyword sentence]
             | None => []
             end.
Proof.
  induction sentences as [|s ss IH]; simpl.
  - rewrite app_nil_r. reflexivity.
  - unfold mentions at 1. destruct (contains (lower keyword) (lower s)); [reflexivity | exact IH].
Qed.

Lemma generate_flashcards_eq (text : str) (kws : list str) :
  generate_flashcards text kws = flat_map (cards_of text) (firstn 5 kws).
Proof.
  unfold generate_flashcards. fold (flashcard_sentences text).
  assert (G : forall l acc,
             fold_left (fun flashcards keyword =>
                          flashcard_for keyword (flashcard_sentences text) flashcards) l acc
             = acc ++ flat_map (cards_of text) l).
  { induction l as [|k l IH]; intros acc; simpl.
    - rewrite app_nil_r. reflexivity.
    - rewrite IH, flashcard_for_eq, <- app_assoc. reflexivity. }
  rewrite G. reflexivity.
Qed.

(** X6.  [generate_flashcards] looks at the first five keywords only and
    makes, in their order, one card for each keyword that some sentence
    mentions, with the first such sentence on the back; a keyword no
    sentence mentions gets no card. *)
Theorem flashcards_per_keyword (text : str) (kws : list str) :
  generate_flashcards text kws = flat_map (cards_of text) (firstn 5 kws) /\
  (forall k,
     (cards_of text k = [] <->
      forall s, In s (flashcard_sentences text) -> mentions k s = false) /\
     (forall c, In c (cards_of text k) ->
        cards_of text k = [c] /\
        exists before after,
          flashcard_sentences text = before ++ back c :: after /\
          mentions k (back c) = true /\
          Forall (fun s => mentions k s = false) before)).
Proof.
  split; [apply generate_flashcards_eq|]. intros k. unfold cards_of.
  destruct (find (mentions k) (flashcard_sentences text)) as [s|] eqn:F.
  - split.
    + split; [discriminate|]. intros H. apply find_some in F.
      destruct F as [I M]. rewrite (H s I) in M. discriminate.
    + intros c [<-|[]]. split; [reflexivity|]. cbn [back card].
      clear -F. induction (flashcard_sentences text) as [|x l IH]; [discriminate|].
      simpl in F. destruct (mentions k x) eqn:M.
      * inversion F; subst. exists [], l. auto.
      * destruct (IH F) as (b & a & E & Ms & Fb).
        exists (x :: b), a. rewrite E. auto.
  - split.
    + split; [|reflexivity]. intros _ s I. apply (find_none _ _ F s I).
    + intros c [].
Qed.

(** X7.  [generate_flashcards] returns at most five cards and at most one
    per keyword.  The keyword of a card is one of the first five keywords
    and its front is the question made of it; its back is a sentence of
    the text that mentions the keyword without regard to case, is not
    empty, holds no period and neither starts nor ends with whitespace. *)
Theorem flashcards_well_formed (text : str) (kws : list str) :
  (length (generate_flashcards text kws) <= Nat.min 5 (length kws))%nat /\
  forall c, In c (generate_flashcards text kws) ->
    In (keyword c) (firstn 5 kws) /\
    front c = u "Что такое " ++ keyword c ++ u "?" /\
    mentions (keyword c) (back c) = true /\
    back c <> [] /\ ~ In 46 (back c) /\
    (forall x r, back c = x :: r -> is_space x = false) /\
    (forall x r, back c = r ++ [x] -> is_space x = false).
Proof.
  rewrite generate_flashcards_eq. split.
  - rewrite <- (length_firstn 5 kws).
    induction (firstn 5 kws) as [|k l IH]; [simpl; lia|].
    cbn [flat_map]. rewrite length_app. unfold cards_of at 1.
    destruct (find _ _); simpl length; lia.
  - intros c Hc. apply in_flat_map in Hc. destruct Hc as (k & Hk & Hc).
    unfold cards_of in Hc.
    destruct (find (mentions k) (flashcard_sentences text)) as [s|] eqn:F; [|destruct Hc].
    destruct Hc as [<-|[]]. cbn [keyword front back card].
    apply find_some in F. destruct F as [I M].
    split; [exact Hk|]. split; [reflexivity|]. split; [exact M|].
    unfold flashcard_sentences in I. apply in_map_iff in I.
    destruct I as (f & <- & If). apply filter_In in If. destruct If as [If T].
    split; [destruct (strip f); [discriminate T | discriminate]|].
    split.
    + intros H. apply strip_In in H.
      pose proof (split_char_no_sep 46 text) as N. rewrite Forall_forall in N.
      apply (N f If H).
    + apply strip_ends.
Qed.

End Flashcards.

Lemma flashcards_per_keyword_witness :
  cards_of (U := basic_unicode) cards_text (u "код") = [code_card] /\
  exists before after,
    flashcard_sentences cards_text = before ++ back code_card :: after /\
    mentions (U := basic_unicode) (u "код") (back code_card) = true /\
    Forall (fun s => mentions (U := basic_unicode) (u "код") s = false) before.
Proof.
  apply (proj2 (proj2 (flashcards_per_keyword (U := basic_unicode) cards_text cards_keywords)
                      (u "код"))
               code_card).
  vm_compute. left. reflexivity.
Defined.

Lemma flashcards_well_formed_witness :
  In (keyword algorithm_card) (firstn 5 cards_keywords) /\
  front algorithm_card = u "Что такое " ++ keyword algorithm_card ++ u "?" /\
  mentions (U := basic_unicode) (keyword algorithm_card) (back algorithm_card) = true /\
  back algorithm_card <> [] /\ ~ In 46 (back algorithm_card) /\
  (forall x r, back algorithm_card = x :: r -> is_space x = false) /\
  (forall x r, back algorithm_card = r ++ [x] -> is_space x = false).
Proof.
  apply (proj2 (flashcards_well_formed (U := basic_unicode) cards_text cards_keywords)
               algorithm_card).
  vm_compute. left. reflexivity.
Defined.

(** ** [Counter] *)

Lemma times_cons (k w : str) (l : list str) :
  times k (w :: l) = (if str_eqb k w then 1 else 0) + times k l.
Proof.
  unfold times. simpl filter. destruct (str_eqb k w); [rewrite len_cons|]; lia.
Qed.

Lemma times_nonneg (k : str) (l : list str) : 0 <= times k l.
Proof. apply len_nonneg. Qed.

Lemma times_pos_In (k : str) (l : list str) : 0 < times k l <-> In k l.
Proof.
  induction l as [|w l IH]; [cbn; split; [lia | intros []]|].
  rewrite times_cons. pose proof (times_nonneg k l). simpl In.
  destruct (str_eqb k w) eqn:E.
  - apply str_eqb_eq in E. subst. split; [auto | lia].
  - rewrite Z.add_0_l, IH. split; [auto|]. intros [H1|H1]; [|exact H1].
    subst. rewrite str_eqb_refl in E. discriminate.
Qed.

Lemma get_count_loop (k : str) (l : list str) : forall d : dict,
  get k (fold_left (fun d w => add w 1 d) l d)
  = match get k d with
    | Some v => Some (v + times k l)
    | None => if times k l >? 0 then Some (times k l) else None
    end.
Proof.
  induction l as [|w l IH]; intros d.
  - cbn [fold_left]. change (times k []) with 0. destruct (get k d); [f_equal; lia | reflexivity].
  - cbn [fold_left]. rewrite IH, times_cons. pose proof (times_nonneg k l) as P.
    destruct (str_eqb k w) eqn:E; cbv iota.
    + apply str_eqb_eq in E. subst w. rewrite get_add_same.
      destruct (get k d); [f_equal; lia|]. clear IH. split_gtb; [reflexivity | lia].
    + rewrite get_add_other by (intros ->; rewrite str_eqb_refl in E; discriminate).
      rewrite Z.add_0_l. reflexivity.
Qed.

Lemma NoDup_keys_count_loop (l : list str) : forall d : dict,
  NoDup (keys d) -> NoDup (keys (fold_left (fun d w => add w 1 d) l d)).
Proof.
  induction l as [|w l IH]; intros d N; [exact N|].
  cbn [fold_left]. apply IH. apply NoDup_keys_add. exact N.
Qed.

Lemma NoDup_get (k : str) (v : Z) (d : dict) :
  NoDup (keys d) -> In (k, v) d -> get k d = Some v.
Proof.
  induction d as [|[k' w] d IH]; intros N I; [destruct I|].
  inversion N as [|? ? Hk N']; subst. simpl. destruct I as [I|I].
  - inversion I; subst. rewrite str_eqb_refl. reflexivity.
  - rewrite str_eqb_neq; [apply IH; assumption|].
    intros ->. apply Hk. change k' with (fst (k', v)). apply in_map. exact I.
Qed.

(** [Counter(words)] has one entry per distinct word, holding the number
    of its occurrences. *)
Lemma Counter_entries (l : list str) :
  NoDup (keys (Counter l)) /\
  (forall k v, In (k, v) (Counter l) <-> In k l /\ v = times k l).
Proof.
  assert (N : NoDup (keys (Counter l))) by (apply NoDup_keys_count_loop; constructor).
  split; [exact N|]. intros k v.
  pose proof (get_count_loop k l []) as G. cbn [get] in G. fold (Counter l) in G.
  split.
  - intros I. apply (NoDup_get _ _ _ N) in I. rewrite I in G.
    rewrite Z.gtb_ltb in G. destruct (Z.ltb_spec 0 (times k l)) as [Hp|Hn];
      [|discriminate G].
    inversion G; subst. split; [|reflexivity]. apply times_pos_In. exact Hp.
  - intros [I ->]. apply times_pos_In in I. apply get_In. rewrite G.
    rewrite Z.gtb_ltb. destruct (Z.ltb_spec 0 (times k l)); [reflexivity | lia].
Qed.

Lemma fold_left_snoc {A B} (f : A -> B -> A) (l : list B) (x : B) (a : A) :
  fold_left f (l ++ [x]) a = f (fold_left f l a) x.
Proof. rewrite fold_left_app. reflexivity. Qed.

Lemma index_of_app_In (k : str) (l r : list str) :
  In k l -> index_of k (l ++ r) = index_of k l /\ (index_of k l < length l)%nat.
Proof.
  induction l as [|w l IH]; intros I; [destruct I|].
  cbn [app index_of length]. destruct (str_eqb k w) eqn:E; [lia|].
  destruct I as [I|I]; [subst; rewrite str_eqb_refl in E; discriminate|].
  destruct (IH I). lia.
Qed.

Lemma index_of_app_out (k : str) (l r : list str) :
  ~ In k l -> index_of k (l ++ r) = (length l + index_of k r)%nat.
Proof.
  induction l as [|w l IH]; intros N; [reflexivity|].
  cbn [app index_of length].
  rewrite str_eqb_neq by (intros ->; apply N; left; reflexivity).
  rewrite IH by (intros I; apply N; right; exact I). lia.
Qed.

Lemma StronglySorted_snoc {A} (R : A -> A -> Prop) (l : list A) (x : A) :
  StronglySorted R l -> Forall (fun y => R y x) l -> StronglySorted R (l ++ [x]).
Proof.
  induction 1 as [|a l S IH F]; intros H; simpl.
  - repeat constructor.
  - inversion H; subst. constructor; [apply IH; assumption|].
    apply Forall_app. split; [exact F | constructor; [assumption | constructor]].
Qed.

Lemma StronglySorted_weaken_In {A} (R S : A -> A -> Prop) (l : list A) :
  (forall a b, In a l -> In b l -> R a b -> S a b) ->
  StronglySorted R l -> StronglySorted S l.
Proof.
  intros W H. induction H as [|a l H IH F]; constructor.
  - apply IH. intros x y Hx Hy. apply W; right; assumption.
  - rewrite Forall_forall in *. intros y Hy.
    apply W; [left; reflexivity | right; exact Hy | apply F; exact Hy].
Qed.

(** The entries of [Counter(words)] stand in the order in which the
    words are first met. *)
Lemma Counter_order (l : list str) :
  StronglySorted (fun a b => (index_of a l < index_of b l)%nat) (keys (Counter l)).
Proof.
  induction l as [|w l IH] using rev_ind; [constructor|].
  assert (K : forall k, In k (keys (Counter l)) -> In k l).
  { intros k I. unfold keys in I. apply in_map_iff in I. destruct I as ([k' v] & <- & I).
    apply (proj2 (Counter_entries l)) in I. apply I. }
  assert (IH' : StronglySorted (fun a b => (index_of a (l ++ [w]) < index_of b (l ++ [w]))%nat)
                               (keys (Counter l))).
  { eapply StronglySorted_weaken_In; [|exact IH]. cbv beta. intros a b Ia Ib H.
    destruct (index_of_app_In a l [w] (K a Ia)) as [-> _].
    destruct (index_of_app_In b l [w] (K b Ib)) as [-> _]. exact H. }
  unfold Counter. rewrite fold_left_snoc. fold (Counter l). rewrite keys_add.
  destruct (mem w (keys (Counter l))) eqn:M; [exact IH'|].
  apply StronglySorted_snoc; [exact IH'|].
  apply Forall_forall. intros k Ik.
  destruct (index_of_app_In k l [w] (K k Ik)) as [-> Hlt].
  assert (Nw : ~ In w l).
  { intros I. assert (In w (keys (Counter l))).
    { unfold keys. apply in_map_iff. exists (w, times w l). split; [reflexivity|].
      apply (proj2 (Counter_entries l)). auto. }
    apply mem_In in H. congruence. }
  rewrite index_of_app_out by exact Nw. lia.
Qed.

(** ** The keywords of [analyze_comprehensive] *)

Lemma StronglySorted_map {A B} (f : A -> B) (R : B -> B -> Prop) (l : list A) :
  StronglySorted (fun a b => R (f a) (f b)) l <-> StronglySorted R (map f l).
Proof.
  induction l as [|a l IH]; simpl; [split; constructor|].
  split; intros H; inversion H as [|? ? S F]; subst; constructor;
    try (apply IH; assumption).
  - apply Forall_forall. intros y Hy. apply in_map_iff in Hy.
    destruct Hy as (x & <- & Hx). rewrite Forall_forall in F. apply F. exact Hx.
  - apply Forall_forall. intros x Hx. rewrite Forall_forall in F. apply F.
    apply in_map. exact Hx.
Qed.

Lemma StronglySorted_app_inv {A} (R : A -> A -> Prop) (l r : list A) :
  StronglySorted R (l ++ r) ->
  StronglySorted R l /\ forall a b, In a l -> In b r -> R a b.
Proof.
  induction l as [|x l IH]; simpl; intros H.
  - split; [constructor | intros a b []].
  - inversion H as [|? ? S F]; subst. destruct (IH S) as [Sl Hlr].
    rewrite Forall_forall in F. split.
    + constructor; [exact Sl|]. apply Forall_forall. intros y Hy. apply F.
      apply in_or_app. left. exact Hy.
    + intros a b [<-|Ha] Hb; [apply F; apply in_or_app; right; exact Hb | apply Hlr; assumption].
Qed.

Lemma StronglySorted_NoDup {A} (R : A -> A -> Prop) (l : list A) :
  (forall a, ~ R a a) -> StronglySorted R l -> NoDup l.
Proof.
  intros Irr H. induction H as [|a l S IH F]; constructor; [|exact IH].
  intros I. rewrite Forall_forall in F. apply (Irr a). apply F. exact I.
Qed.

Lemma letters_run_firstn (s : str) :
  Forall (fun c => is_lower_letter c = true) (firstn (letters_run s) s).
Proof.
  induction s as [|c s IH]; simpl; [constructor|].
  destruct (is_lower_letter c) eqn:E; simpl; constructor; assumption.
Qed.

Section Keywords.
Context {U : Unicode}.

(** What [\b[а-яa-z]+\b] matches: letters of the class, with no word
    character on either side. *)
Lemma word_token_shape (p : option Z) (rest : str) (n : nat) :
  word_token p rest = Some n ->
  firstn n rest <> [] /\
  Forall (fun c => is_lower_letter c = true) (firstn n rest) /\
  is_word_opt p = false /\
  is_word_opt (hd_error (skipn n rest)) = false.
Proof.
  unfold word_token. destruct rest as [|c r]; [discriminate|].
  destruct (is_lower_letter c) eqn:El; [|discriminate]. cbn [andb].
  destruct (is_word_opt p) eqn:Ep; [discriminate|]. cbn [negb].
  assert (Hn : firstn (letters_run (c :: r)) (c :: r) <> []).
  { cbn [letters_run]. rewrite El. discriminate. }
  pose proof (letters_run_firstn (c :: r)) as F.
  destruct (skipn (letters_run (c :: r)) (c :: r)) as [|d t] eqn:Es.
  - intros H.
    assert (En : letters_run (c :: r) = n) by (injection H; intros E; exact E).
    rewrite <- En, Es. auto.
  - destruct (is_word d) eqn:Ew; [discriminate|]. intros H.
    assert (En : letters_run (c :: r) = n) by (injection H; intros E; exact E).
    rewrite <- En, Es. cbn [hd_error is_word_opt]. auto.
Qed.

Lemma words_of_shape (text k : str) :
  In k (words_of text) ->
  k <> [] /\ Forall (fun c => is_lower_letter c = true) k /\
  exists pre post,
    lower text = pre ++ k ++ post /\
    is_word_opt (last_or None pre) = false /\
    is_word_opt (hd_error post) = false.
Proof.
  intros I. unfold words_of in I.
  destruct (findall_In _ _ _ I) as (pre & rest & n & E & M & ->).
  destruct (word_token_shape _ _ _ M) as (H1 & H2 & H3 & H4).
  split; [exact H1|]. split; [exact H2|].
  exists pre, (skipn n rest). rewrite firstn_skipn. auto.
Qed.

Lemma filtered_words_In (text k : str) :
  In k (filtered_words_of text) <->
  In k (words_of text) /\ ~ In k stop_words /\ 3 < len k.
Proof.
  unfold filtered_words_of. rewrite filter_In, andb_true_iff, negb_true_iff.
  rewrite Z.gtb_ltb, Z.ltb_lt.
  split; intros (H1 & H2 & H3); (split; [exact H1|]); (split; [|exact H3]).
  - intros I. apply mem_In in I. congruence.
  - destruct (mem k stop_words) eqn:M; [|reflexivity]. apply mem_In in M. contradiction.
Qed.

(** The ranking behind [keywords]: the entries of the counter, sorted. *)
Lemma ranking_sorted (l : list str) :
  StronglySorted (fun a b => ranks_before l (fst a) (fst b)) (sorted_desc (Counter l)) /\
  (forall k v, In (k, v) (sorted_desc (Counter l)) <-> In k l /\ v = times k l).
Proof.
  assert (E : forall k v, In (k, v) (sorted_desc (Counter l)) <-> In k l /\ v = times k l).
  { intros k v. rewrite <- (proj2 (Counter_entries l)).
    split; apply Permutation_in;
      [apply sorted_desc_perm | symmetry; apply sorted_desc_perm]. }
  split; [|exact E].
  pose proof (Counter_order l) as O.
  apply (proj2 (StronglySorted_map fst (fun a b => (index_of a l < index_of b l)%nat) _)) in O.
  apply (sorted_desc_stable
           (fun a b => (index_of (fst a) l < index_of (fst b) l)%nat)) in O.
  eapply StronglySorted_weaken_In; [|exact O]. cbv beta.
  intros [a va] [b vb] Ia Ib H. apply E in Ia. apply E in Ib.
  destruct Ia as [_ ->]. destruct Ib as [_ ->]. exact H.
Qed.

Lemma ranks_before_irrefl (l : list str) (a : str) : ~ ranks_before l a a.
Proof. unfold ranks_before. lia. Qed.

Lemma keywords_of_unfold (text : str) :
  keywords_of text
  = map fst (firstn 10 (sorted_desc (Counter (filtered_words_of text)))).
Proof. reflexivity. Qed.

Lemma keywords_of_In (text k : str) :
  In k (keywords_of text) -> In k (filtered_words_of text).
Proof.
  rewrite keywords_of_unfold. intros I. apply in_map_iff in I.
  destruct I as ([k' v] & <- & I). apply In_firstn in I.
  apply (proj2 (ranking_sorted _)) in I. apply I.
Qed.

Lemma keywords_of_sorted (text : str) :
  StronglySorted (ranks_before (filtered_words_of text)) (keywords_of text).
Proof.
  rewrite keywords_of_unfold.
  apply (proj1 (StronglySorted_map fst (ranks_before (filtered_words_of text)) _)).
  pose proof (proj1 (ranking_sorted (filtered_words_of text))) as S.
  rewrite <- (firstn_skipn 10 (sorted_desc _)) in S.
  apply StronglySorted_app_inv in S. exact (proj1 S).
Qed.

(** X8.  The keywords are at most ten and pairwise distinct.  Each one
    has at least four characters, all of them letters of [[а-яa-z]], is no
    stop word, and stands in the lowercased text with no word character
    next to it on either side. *)
Theorem keywords_well_formed (text : str) :
  (length (keywords_of text) <= 10)%nat /\
  NoDup (keywords_of text) /\
  forall k, In k (keywords_of text) ->
    3 < len k /\ ~ In k stop_words /\
    Forall (fun c => is_lower_letter c = true) k /\
    exists pre post,
      lower text = pre ++ k ++ post /\
      is_word_opt (last_or None pre) = false /\
      is_word_opt (hd_error post) = false.
Proof.
  split; [|split].
  - rewrite keywords_of_unfold, length_map. apply firstn_le_length.
  - eapply StronglySorted_NoDup; [|apply keywords_of_sorted].
    apply ranks_before_irrefl.
  - intros k I. apply keywords_of_In in I. apply filtered_words_In in I.
    destruct I as (W & S & L). destruct (words_of_shape _ _ W) as (_ & F & E).
    auto.
Qed.

(** X9.  The keywords stand by decreasing number of occurrences among the
    filtered words, and among equally frequent ones in the order of their
    first occurrence.  A filtered word is left out only when ten keywords
    rank before it. *)
Theorem keywords_ranked (text : str) :
  StronglySorted (ranks_before (filtered_words_of text)) (keywords_of text) /\
  forall w, In w (filtered_words_of text) -> ~ In w (keywords_of text) ->
    length (keywords_of text) = 10%nat /\
    forall k, In k (keywords_of text) -> ranks_before (filtered_words_of text) k w.
Proof.
  split; [apply keywords_of_sorted|]. intros w Iw Nw.
  set (fw := filtered_words_of text) in *.
  pose proof (ranking_sorted fw) as [S E].
  assert (Il : In (w, times w fw) (sorted_desc (Counter fw))) by (apply E; auto).
  rewrite <- (firstn_skipn 10 (sorted_desc (Counter fw))) in Il, S.
  apply in_app_or in Il. destruct Il as [Il|Il].
  { exfalso. apply Nw. rewrite keywords_of_unfold. fold fw.
    change w with (fst (w, times w fw)). apply in_map. exact Il. }
  apply StronglySorted_app_inv in S. destruct S as [_ S]. split.
  - rewrite keywords_of_unfold. fold fw. rewrite length_map, length_firstn.
    destruct (Nat.le_gt_cases 10 (length (sorted_desc (Counter fw)))) as [H|H]; [lia|].
    rewrite skipn_all2 in Il by lia. destruct Il.
  - intros k Ik. rewrite keywords_of_unfold in Ik. fold fw in Ik.
    apply in_map_iff in Ik. destruct Ik as ([k' v] & <- & Ik).
    apply (S (k', v) (w, times w fw) Ik Il).
Qed.

End Keywords.

Lemma keywords_well_formed_witness :
  3 < len (u "алгоритм") /\ ~ In (u "алгоритм") stop_words /\
  Forall (fun c => is_lower_letter c = true) (u "алгоритм") /\
  exists pre post,
    lower (Unicode := basic_unicode) keywords_text = pre ++ u "алгоритм" ++ post /\
    is_word_opt (U := basic_unicode) (last_or None pre) = false /\
    is_word_opt (U := basic_unicode) (hd_error post) = false.
Proof.
  apply (proj2 (proj2 (keywords_well_formed (U := basic_unicode) keywords_text))
               (u "алгоритм")).
  vm_compute. left. reflexivity.
Defined.

Lemma keywords_ranked_witness :
  length (keywords_of (U := basic_unicode) (u "aaaa bbbb cccc dddd eeee ffff gggg hhhh iiii jjjj kkkk aaaa"))
  = 10%nat /\
  forall k,
    In k (keywords_of (U := basic_unicode)
            (u "aaaa bbbb cccc dddd eeee ffff gggg hhhh iiii jjjj kkkk aaaa")) ->
    ranks_before
      (filtered_words_of (U := basic_unicode)
         (u "aaaa bbbb cccc dddd eeee ffff gggg hhhh iiii jjjj kkkk aaaa"))
      k (u "kkkk").
Proof.
  apply (proj2 (keywords_ranked (U := basic_unicode)
                  (u "aaaa bbbb cccc dddd eeee ffff gggg hhhh iiii jjjj kkkk aaaa"))
               (u "kkkk")).
  - vm_compute. do 10 right. left. reflexivity.
  - vm_compute. intuition discriminate.
Defined.

(** ** Binary64 facts *)

Lemma digits2_pos_bound (m : positive) : Zpos m < 2 ^ Zpos (digits2_pos m).
Proof.
  induction m as [m IH|m IH|]; simpl digits2_pos.
  - rewrite Pos2Z.inj_succ, Z.pow_succ_r by lia. lia.
  - rewrite Pos2Z.inj_succ, Z.pow_succ_r by lia. lia.
  - reflexivity.
Qed.

(** The mantissa of a binary64 number has at most 53 bits. *)
Lemma valid_mantissa_bound (f : float) s m e :
  Prim2SF f = S754_finite s m e -> Zpos m < 2 ^ 53.
Proof.
  intros E. pose proof (Prim2SF_valid f) as V. rewrite E in V. clear E.
  unfold SpecFloat.valid_binary, bounded, canonical_mantissa in V.
  apply andb_true_iff in V. destruct V as [V _]. apply Z.eqb_eq in V.
  unfold fexp, FloatOps.prec, emin, FloatOps.emax in V.
  pose proof (digits2_pos_bound m) as B.
  assert (D : Zpos (digits2_pos m) <= 53) by lia.
  eapply Z.lt_le_trans; [exact B|]. apply Z.pow_le_mono_r; lia.
Qed.

Lemma Prim2SF_0 : Prim2SF 0 = S754_zero false.
Proof. vm_compute. reflexivity. Qed.

Lemma Prim2SF_100 : Prim2SF 100 = S754_finite false 7036874417766400 (-46).
Proof. vm_compute. reflexivity. Qed.

(** A float strictly between 0 and 100, as mantissa and exponent. *)
Lemma between_0_100 (f : float) :
  PrimFloat.ltb 0 f = true -> PrimFloat.ltb f 100 = true ->
  exists m e, Prim2SF f = S754_finite false m e /\ Zpos m < 2 ^ 53 /\
              (e < -46 \/ (e = -46 /\ Zpos m < 7036874417766400)).
Proof.
  rewrite (ltb_spec 0 f), (ltb_spec f 100), Prim2SF_0, Prim2SF_100.
  intros H0 H1.
  destruct (Prim2SF f) as [s|s| |s m e] eqn:E; unfold SFltb, SFcompare in H0, H1;
    try discriminate.
  - destruct s; discriminate.
  - destruct s; [discriminate|].
    exists m, e. split; [reflexivity|]. split; [eapply valid_mantissa_bound; exact E|].
    destruct (Z.compare_spec e (-46)) as [He|He|He]; try discriminate.
    + right. split; [assumption|].
      rewrite (Pos.compare_cont_spec m 7036874417766400 Eq) in H1.
      destruct (Pos.compare_spec m 7036874417766400) as [Hc|Hc|Hc];
        cbn [Pos.switch_Eq] in H1; try discriminate H1.
      exact Hc.
    + left. assumption.
Qed.

Lemma pow2_47_le (n : Z) : 47 <= n -> 2 ^ 47 <= 2 ^ n.
Proof. intros H. apply Z.pow_le_mono_r; lia. Qed.

Lemma tenths_range (m : positive) (e : Z) :
  Zpos m < 2 ^ 53 -> (e < -46 \/ (e = -46 /\ Zpos m < 7036874417766400)) ->
  0 <= tenths m e <= 1000.
Proof.
  intros Hm He. unfold tenths.
  destruct (Z.leb_spec 0 e) as [H|H]; [lia|].
  unfold round_half_even.
  set (d := 2 ^ (- e)).
  assert (Hd : 0 < d) by (apply Z.pow_pos_nonneg; lia).
  assert (Hlt : 10 * Zpos m < 1000 * d).
  { destruct He as [He|[He Hm']].
    - assert (D : 2 ^ 47 <= d) by (apply pow2_47_le; lia).
      change (2 ^ 53) with 9007199254740992 in Hm.
      change (2 ^ 47) with 140737488355328 in D. lia.
    - subst e d. change (2 ^ (- -46)) with 70368744177664. lia. }
  assert (Hq : 0 <= 10 * Zpos m / d <= 999).
  { split; [apply Z.div_pos; lia|].
    assert (10 * Zpos m / d < 1000) by (apply Z.div_lt_upper_bound; lia). lia. }
  destruct (2 * ((10 * Zpos m) mod d) ?= d); [destruct (Z.even _)|..]; lia.
Qed.

(** [round(f, 1)] of a float between 0 and 100 is a tenth [k/10] with
    [k] between 0 and 1000. *)
Lemma float_round1_tenth (f : float) :
  PrimFloat.ltb 0 f = true -> PrimFloat.ltb f 100 = true ->
  exists k, 0 <= k <= 1000 /\ float_round1 f = truediv_value k 10.
Proof.
  intros H0 H1. destruct (between_0_100 f H0 H1) as (m & e & E & Hm & He).
  exists (tenths m e). split; [apply tenths_range; assumption|].
  unfold float_round1. rewrite E. reflexivity.
Qed.

Lemma tenth_values_In (k : Z) : 0 <= k <= 1000 -> In k tenth_values.
Proof.
  intros H. unfold tenth_values. apply in_map_iff. exists (Z.to_nat k).
  split; [lia|]. apply in_seq. lia.
Qed.

(** A property of the tenths is checked by evaluating it on each. *)
Lemma tenth_check (P : num -> bool) :
  forallb (fun k => P (PFloat (truediv_value k 10))) tenth_values = true ->
  forall k, 0 <= k <= 1000 -> P (PFloat (truediv_value k 10)) = true.
Proof.
  intros H k Hk. rewrite forallb_forall in H. apply H. apply tenth_values_In. exact Hk.
Qed.

Lemma to_float_100 : truediv_value 100 1 = 100%float.
Proof. vm_compute. reflexivity. Qed.

Lemma to_float_0 : truediv_value 0 1 = 0%float.
Proof. vm_compute. reflexivity. Qed.

(** What [round(max(0, min(100, r)), 1)] can be. *)
Lemma clamp_round_values (r : float) :
  let v := py_round1 (py_max (PInt 0) (py_min (PInt 100) (PFloat r))) in
  v = PInt 0 \/ v = PInt 100 \/
  exists k, 0 <= k <= 1000 /\ v = PFloat (truediv_value k 10).
Proof.
  cbv zeta. unfold py_min, py_max.
  cbn [num_lt to_float]. rewrite to_float_100.
  destruct (PrimFloat.ltb r 100) eqn:H1.
  - cbn [num_lt to_float]. rewrite to_float_0.
    destruct (PrimFloat.ltb 0 r) eqn:H0.
    + right. right. cbn [py_round1].
      destruct (float_round1_tenth r H0 H1) as (k & Hk & E).
      exists k. rewrite E. auto.
    + left. reflexivity.
  - right. left. reflexivity.
Qed.

(** ** [calculate_readability] and the difficulty level *)

Lemma scale_of_ints :
  in_scale (PInt 50) = true /\ in_scale (PInt 0) = true /\ in_scale (PInt 100) = true /\
  truediv_value 50 1 = truediv_value 500 10 /\
  truediv_value 0 1 = truediv_value 0 10 /\
  truediv_value 100 1 = truediv_value 1000 10.
Proof. vm_compute. repeat split; reflexivity. Qed.

Lemma scale_of_tenths (k : Z) :
  0 <= k <= 1000 -> in_scale (PFloat (truediv_value k 10)) = true.
Proof. apply (tenth_check in_scale). vm_compute. reflexivity. Qed.

Lemma level_of_ints :
  level_matches (PInt 50) = true /\ level_matches (PInt 0) = true /\
  level_matches (PInt 100) = true.
Proof. vm_compute. repeat split; reflexivity. Qed.

Lemma level_of_tenths (k : Z) :
  0 <= k <= 1000 -> level_matches (PFloat (truediv_value k 10)) = true.
Proof. apply (tenth_check level_matches). vm_compute. reflexivity. Qed.

Lemma len_eqb_0 {A} (l : list A) : truthy l = true -> (len l =? 0) = false.
Proof.
  destruct l; [discriminate|]. intros _. rewrite len_cons.
  pose proof (len_nonneg l). apply Z.eqb_neq. lia.
Qed.

Section Readability.
Context {U : Unicode}.

(** The values [calculate_readability] can return. *)
Lemma readability_values (text : str) :
  exists v, calculate_readability text = Some v /\
    (v = PInt 50 \/ v = PInt 0 \/ v = PInt 100 \/
     exists k, 0 <= k <= 1000 /\ v = PFloat (truediv_value k 10)).
Proof.
  unfold calculate_readability.
  set (sentences := filter (fun s => truthy (strip s)) (split_char 46 text)).
  set (words := split_ws text).
  destruct (truthy sentences) eqn:Ts; destruct (truthy words) eqn:Tw; cbn [negb orb];
    try (exists (PInt 50); split; [reflexivity | left; reflexivity]).
  unfold int_truediv. rewrite (len_eqb_0 _ Ts), (len_eqb_0 _ Tw).
  eexists. split; [reflexivity|]. right. apply clamp_round_values.
Qed.

(** X10.  [calculate_readability] never fails, since both averages are
    taken only when there is a sentence and a word.  Its result lies
    between 0 and 100 and is one of the tenths [k/10], [0 <= k <= 1000];
    without a sentence or without a word it is 50. *)
Theorem readability_in_scale (text : str) :
  exists v, calculate_readability text = Some v /\ in_scale v = true /\
    (exists k, 0 <= k <= 1000 /\ to_float v = truediv_value k 10) /\
    (filter (fun s => truthy (strip s)) (split_char 46 text) = [] \/ split_ws text = [] ->
     v = PInt 50).
Proof.
  destruct (readability_values text) as (v & E & H). exists v.
  split; [exact E|].
  destruct scale_of_ints as (S50 & S0 & S100 & F50 & F0 & F100).
  split; [|split].
  - destruct H as [->|[->|[->|(k & Hk & ->)]]]; auto using scale_of_tenths.
  - destruct H as [->|[->|[->|(k & Hk & ->)]]]; cbn [to_float].
    + exists 500. split; [lia | exact F50].
    + exists 0. split; [lia | exact F0].
    + exists 1000. split; [lia | exact F100].
    + exists k. split; [exact Hk | reflexivity].
  - intros G. unfold calculate_readability in E.
    destruct G as [G|G]; rewrite G in E; cbn [truthy negb orb] in E.
    + inversion E. reflexivity.
    + rewrite orb_true_r in E. inversion E. reflexivity.
Qed.

(** What a report is made of. *)
Lemma analyze_comprehensive_parts (text : str) (r : report) :
  analyze_comprehensive text = Some r ->
  detect_subject text = Some (subject r) /\
  calculate_readability text = Some (readability_score r) /\
  calculate_engagement_score text = Some (engagement_score r) /\
  keywords r = keywords_of text /\
  learning_styles_of r = suggest_learning_style text /\
  flashcards r = generate_flashcards text (keywords_of text) /\
  prerequisites r = identify_prerequisites text (subject r) /\
  notes_template r = generate_study_notes_template text (keywords_of text) /\
  difficulty_interpretation r = _interpret_readability (readability_score r) /\
  word_count (basic_stats r) = len (words_of text) /\
  unique_words (basic_stats r) = len (distinct (words_of text)) /\
  sentence_count (basic_stats r)
  = len (filter (fun s => truthy (strip s)) (split_char 46 text)).
Proof.
  unfold analyze_comprehensive.
  destruct (detect_subject text) as [s|]; [|discriminate].
  destruct (calculate_readability text) as [v|]; [|discriminate].
  destruct (calculate_engagement_score text) as [e|]; [|discriminate].
  destruct (int_truediv _ _) as [a|]; [|discriminate].
  intros H. inversion H. cbn. repeat split; reflexivity.
Qed.

(** X11.  In every report the level of the difficulty interpretation is
    'Лёгкий' exactly when the readability score is at least 70, 'Средний'
    exactly when it is at least 50 and below 70, and 'Сложный' exactly
    when it is below 50: the score is never a NaN that would reach the
    last branch without being below 50. *)
Theorem difficulty_level_thresholds (text : str) (r : report) :
  analyze_comprehensive text = Some r ->
  let score := readability_score r in
  let l := level (difficulty_interpretation r) in
  (l = easy <-> num_le (PInt 70) score = true) /\
  (l = medium <-> num_le (PInt 50) score = true /\ num_lt score (PInt 70) = true) /\
  (l = hard <-> num_lt score (PInt 50) = true).
Proof.
  intros A. apply analyze_comprehensive_parts in A.
  destruct A as (_ & R & _ & _ & _ & _ & _ & _ & D & _). cbv zeta. rewrite D.
  destruct (readability_values text) as (v & E & H).
  rewrite E in R. injection R as <-.
  assert (M : level_matches v = true).
  { destruct level_of_ints as (L50 & L0 & L100).
    destruct H as [->|[->|[->|(k & Hk & ->)]]]; auto using level_of_tenths. }
  unfold level_matches in M. cbv zeta in M.
  apply andb_true_iff in M. destruct M as [M M3].
  apply andb_true_iff in M. destruct M as [M1 M2].
  apply Bool.eqb_prop in M1. apply Bool.eqb_prop in M2. apply Bool.eqb_prop in M3.
  rewrite <- !str_eqb_eq, M1, M2, M3, andb_true_iff. tauto.
Qed.

End Readability.

Lemma difficulty_level_thresholds_witness :
  exists r, analyze_comprehensive (U := basic_unicode) plain_text = Some r /\
    (level (difficulty_interpretation r) = easy <->
     num_le (PInt 70) (readability_score r) = true).
Proof.
  destruct (analyze_comprehensive (U := basic_unicode) plain_text) as [r|] eqn:A.
  - exists r. split; [reflexivity|].
    exact (proj1 (difficulty_level_thresholds (U := basic_unicode) plain_text r A)).
  - vm_compute in A. discriminate A.
Defined.

(** ** [analyze_comprehensive] *)

Lemma distinct_In (l : list str) (x : str) : In x (distinct l) <-> In x l.
Proof.
  induction l as [|a l IH]; simpl; [reflexivity|].
  destruct (mem a l) eqn:M.
  - rewrite IH. split; [auto|].
    intros [<-|H]; [apply (proj1 (mem_In _ _)); exact M | exact H].
  - simpl. rewrite IH. reflexivity.
Qed.

Lemma distinct_NoDup (l : list str) : NoDup (distinct l).
Proof.
  induction l as [|a l IH]; simpl; [constructor|].
  destruct (mem a l) eqn:M; [exact IH|]. constructor; [|exact IH].
  intros I. apply (proj1 (distinct_In _ _)) in I.
  apply (proj2 (mem_In _ _)) in I. congruence.
Qed.

Lemma distinct_length (l : list str) : (length (distinct l) <= length l)%nat.
Proof.
  induction l as [|a l IH]; simpl; [lia|]. destruct (mem a l); simpl; lia.
Qed.

Lemma firstn_incl_firstn {A} (n m : nat) (l : list A) (x : A) :
  (n <= m)%nat -> In x (firstn n l) -> In x (firstn m l).
Proof.
  revert m l. induction n as [|n IH]; intros m l H I; [destruct I|].
  destruct l as [|a l]; [destruct I|]. destruct m as [|m]; [lia|].
  destruct I as [I|I]; [left; exact I | right; apply IH; [lia | exact I]].
Qed.

Section Report.
Context {U : Unicode}.

Lemma detect_subject_defined (text : str) : exists s, detect_subject text = Some s.
Proof.
  unfold detect_subject. destruct (subject_scores text) as [|kv d].
  - exists general. reflexivity.
  - cbn [truthy negb max_key]. eexists. reflexivity.
Qed.

Lemma engagement_defined (text : str) : exists e, calculate_engagement_score text = Some e.
Proof.
  unfold calculate_engagement_score.
  rewrite (truthy_nonempty _ (split_char_nonempty 46 text)).
  unfold int_truediv. rewrite len_eqb_0; [eexists; reflexivity|].
  apply truthy_nonempty. apply split_char_nonempty.
Qed.

(** X12.  [analyze_comprehensive] never fails.  The average sentence
    length of the report is the word count divided by the sentence count,
    or by 1 when there is no sentence.  The report of the empty text holds
    the defaults: subject 'общий', no keyword, the three default styles,
    readability 50 with level 'Средний', engagement 50, no flashcard and
    the two generic prerequisites. *)
Theorem analyze_comprehensive_total (text : str) :
  (exists r, analyze_comprehensive text = Some r /\
     avg_sentence_length (basic_stats r)
     = truediv_value (word_count (basic_stats r))
                     (Z.max (sentence_count (basic_stats r)) 1)) /\
  (exists r, analyze_comprehensive [] = Some r /\
     subject r = general /\ keywords r = [] /\
     learning_styles_of r = [practical; visual; auditory] /\
     readability_score r = PInt 50 /\ engagement_score r = 50 /\
     flashcards r = [] /\
     prerequisites r = [u "Базовая грамотность"; u "Желание учиться"] /\
     level (difficulty_interpretation r) = medium /\
     word_count (basic_stats r) = 0 /\ sentence_count (basic_stats r) = 0).
Proof.
  split.
  - unfold analyze_comprehensive.
    destruct (detect_subject_defined text) as [s ->].
    destruct (readability_values text) as (v & -> & _).
    destruct (engagement_defined text) as [e ->].
    unfold int_truediv.
    set (n := len (filter (fun s => truthy (strip s)) (split_char 46 text))).
    assert (Hn : (Z.max n 1 =? 0) = false) by (apply Z.eqb_neq; lia).
    rewrite Hn. eexists. split; [reflexivity|]. reflexivity.
  - assert (Hd : detect_subject [] = Some general).
    { unfold detect_subject, subject_scores. rewrite lower_empty. vm_compute. reflexivity. }
    assert (Hr : calculate_readability [] = Some (PInt 50)) by reflexivity.
    assert (He : calculate_engagement_score [] = Some 50).
    { unfold calculate_engagement_score. rewrite lower_empty. vm_compute. reflexivity. }
    assert (Hs : suggest_learning_style [] = [practical; visual; auditory]).
    { unfold suggest_learning_style, style_scores. rewrite lower_empty. vm_compute. reflexivity. }
    assert (Hk : keywords_of [] = []).
    { unfold keywords_of, filtered_words_of, words_of. rewrite lower_empty. reflexivity. }
    assert (Hp : identify_prerequisites [] general
                 = [u "Базовая грамотность"; u "Желание учиться"]).
    { unfold identify_prerequisites. rewrite lower_empty. vm_compute. reflexivity. }
    unfold analyze_comprehensive. rewrite Hd, Hr, He, Hs, Hk, Hp.
    unfold words_of. rewrite lower_empty.
    eexists. split; [reflexivity|].
    cbn [subject keywords learning_styles_of readability_score engagement_score
         flashcards prerequisites difficulty_interpretation basic_stats
         word_count sentence_count].
    repeat split; reflexivity.
Qed.

(** X13.  The parts of a report agree.  The distinct words are at most
    the words, and there is none exactly when there is no word.  The
    keywords to remember are the first eight keywords.  The keyword of
    every flashcard is one of the keywords to remember and one of the
    keywords. *)
Theorem report_consistent (text : str) (r : report) :
  analyze_comprehensive text = Some r ->
  0 <= unique_words (basic_stats r) <= word_count (basic_stats r) /\
  (unique_words (basic_stats r) = 0 <-> word_count (basic_stats r) = 0) /\
  keywords_to_remember (notes_template r) = firstn 8 (keywords r) /\
  forall c, In c (flashcards r) ->
    In (keyword c) (keywords_to_remember (notes_template r)) /\
    In (keyword c) (keywords r).
Proof.
  intros A. apply analyze_comprehensive_parts in A.
  destruct A as (_ & _ & _ & K & _ & F & _ & N & _ & W & Q & _).
  rewrite W, Q, N, K, F. clear. split; [|split; [|split]].
  - pose proof (distinct_length (words_of text)). unfold len. lia.
  - unfold len. destruct (words_of text) as [|w l] eqn:E; [simpl; tauto|].
    assert (In w (distinct (w :: l))) by (apply distinct_In; left; reflexivity).
    destruct (distinct (w :: l)); [contradiction|]. simpl length. lia.
  - reflexivity.
  - intros c I. rewrite generate_flashcards_eq in I. apply in_flat_map in I.
    destruct I as (k & Hk & I). unfold cards_of in I.
    destruct (find _ _); [|destruct I]. destruct I as [<-|[]]. cbn [keyword card].
    split.
    + cbn [keywords_to_remember generate_study_notes_template].
      apply (firstn_incl_firstn 5 8); [lia | exact Hk].
    + apply In_firstn in Hk. exact Hk.
Qed.

End Report.

Lemma report_consistent_witness :
  exists r, analyze_comprehensive (U := basic_unicode) cards_text = Some r /\
    keywords_to_remember (notes_template r) = firstn 8 (keywords r).
Proof.
  destruct (analyze_comprehensive (U := basic_unicode) cards_text) as [r|] eqn:A.
  - exists r. split; [reflexivity|].
    exact (proj1 (proj2 (proj2 (report_consistent (U := basic_unicode) cards_text r A)))).
  - vm_compute in A. discriminate A.
Defined.

(** ** The names [suggest_learning_style] returns *)

Lemma NoDup_firstn {A} (n : nat) (l : list A) : NoDup l -> NoDup (firstn n l).
Proof.
  intros N. rewrite <- (firstn_skipn n l) in N.
  apply NoDup_app_remove_r in N. exact N.
Qed.

Lemma default_styles_known :
  NoDup [practical; visual; auditory] /\
  forall s, In s [practical; visual; auditory] -> In s (keys learning_styles).
Proof.
  split.
  - vm_compute. repeat constructor; simpl; intuition discriminate.
  - intros s I. vm_compute in I. vm_compute. tauto.
Qed.

Section StyleNames.
Context {U : Unicode}.

(** X14.  [suggest_learning_style] returns one, two or three names, all
    different, each of them a style of the lexicon. *)
Theorem style_ranking_names (text : str) :
  suggest_learning_style text <> [] /\
  (length (suggest_learning_style text) <= 3)%nat /\
  NoDup (suggest_learning_style text) /\
  forall s, In s (suggest_learning_style text) -> In s (keys learning_styles).
Proof.
  unfold suggest_learning_style.
  destruct (sorted_desc (style_scores text)) as [|x l] eqn:E.
  - cbn [truthy negb]. destruct default_styles_known as [N K].
    split; [discriminate|]. split; [simpl; lia|]. split; [exact N | exact K].
  - cbn [truthy negb]. rewrite <- E.
    assert (P : Permutation (keys (sorted_desc (style_scores text)))
                            (keys (style_scores text))).
    { apply Permutation_map. apply sorted_desc_perm. }
    rewrite <- firstn_map. fold (keys (sorted_desc (style_scores text))).
    split; [rewrite E; discriminate|].
    split; [pose proof (firstn_le_length 2 (keys (sorted_desc (style_scores text)))); lia|].
    split.
    + apply NoDup_firstn. eapply Permutation_NoDup; [symmetry; exact P|].
      apply NoDup_keys_style_scores.
    + intros s I. apply In_firstn in I. apply (Permutation_in _ P) in I.
      destruct (in_dec (list_eq_dec Z.eq_dec) s (keys learning_styles)) as [H|H];
        [exact H|].
      apply style_scores_get_outside with (text := text) in H.
      apply get_None in H. contradiction.
Qed.

End StyleNames.

(** ** A keyword shared by two categories *)

Lemma sum_indicator (k : str) (n : Z) (kws : list str) :
  sum (map (fun w => if str_eqb k w then n else 0) kws) = n * times k kws.
Proof.
  induction kws as [|w kws IH]; simpl map.
  - rewrite sum_nil. change (times k []) with 0. lia.
  - rewrite sum_cons, times_cons, IH. destruct (str_eqb k w); lia.
Qed.

Lemma entries_of_indicator (n : Z) (c : str * list str -> Z) (lex : list (str * list str)) :
  0 < n -> Forall (fun e => c e = 0 \/ c e = 1) lex ->
  flat_map (fun e => entry_of (fst e) (n * c e)) lex
  = map (fun k => (k, n)) (map fst (filter (fun e => c e =? 1) lex)).
Proof.
  intros Hn F. induction F as [|e l He F IH]; [reflexivity|].
  cbn [flat_map filter]. rewrite IH. unfold entry_of.
  destruct He as [-> | ->].
  - rewrite Z.mul_0_r. reflexivity.
  - rewrite Z.mul_1_r, Z.gtb_ltb. destruct (Z.ltb_spec 0 n); [reflexivity | lia].
Qed.

Lemma shared_keyword_entries :
  Forall (fun e : str * list str =>
            times shared_keyword (snd e) = 0 \/ times shared_keyword (snd e) = 1)
         subject_keywords /\
  map fst (filter (fun e : str * list str => times shared_keyword (snd e) =? 1)
                  subject_keywords)
  = [u "программирование"; u "математика"].
Proof.
  split.
  - apply Forall_forall. intros e He.
    assert (B : forallb (fun e : str * list str =>
                           (times shared_keyword (snd e) =? 0)
                           || (times shared_keyword (snd e) =? 1))
                        subject_keywords = true) by (vm_compute; reflexivity).
    rewrite forallb_forall in B. specialize (B e He).
    apply orb_true_iff in B. destruct B as [B|B]; apply Z.eqb_eq in B; auto.
  - vm_compute. reflexivity.
Qed.

Section SharedKeyword.
Context {U : Unicode}.

(** X15.  When 'функция' is the only lexicon keyword that occurs in the
    lowercased text, 'программирование' and 'математика' reach the same
    score, and [detect_subject] answers 'программирование', the one that
    comes first in the lexicon. *)
Theorem shared_keyword_tie (text : str) :
  0 < count shared_keyword (lower text) ->
  Forall (fun k => k <> shared_keyword -> count k (lower text) = 0)
         (concat (map snd subject_keywords)) ->
  detect_subject text = Some (u "программирование") /\
  get (u "программирование") (subject_scores text)
  = Some (count shared_keyword (lower text)) /\
  get (u "математика") (subject_scores text)
  = Some (count shared_keyword (lower text)).
Proof.
  intros Hn H. set (n := count shared_keyword (lower text)) in *.
  assert (Es : subject_scores text
               = [(u "программирование", n); (u "математика", n)]).
  { rewrite subject_scores_eq.
    rewrite (flat_map_ext_In _
               (fun e => entry_of (fst e) (n * times shared_keyword (snd e)))).
    - destruct shared_keyword_entries as [F E].
      rewrite (entries_of_indicator n (fun e => times shared_keyword (snd e)) _ Hn F).
      rewrite E. reflexivity.
    - intros e He. f_equal. unfold occurrences.
      rewrite <- sum_indicator. f_equal. apply map_ext_in. intros k Hk.
      destruct (str_eqb shared_keyword k) eqn:Ek.
      + apply str_eqb_eq in Ek. subst k. reflexivity.
      + rewrite Forall_forall in H. apply H.
        * apply in_concat. exists (snd e). split; [apply in_map; exact He | exact Hk].
        * intros ->. rewrite str_eqb_refl in Ek. discriminate. }
  unfold detect_subject. rewrite Es. cbn [truthy negb max_key fold_left snd fst].
  rewrite Z.gtb_ltb, Z.ltb_irrefl. split; [reflexivity|].
  cbn [get]. rewrite str_eqb_refl. split; [reflexivity|].
  replace (str_eqb (u "математика") (u "программирование")) with false
    by (vm_compute; reflexivity).
  rewrite str_eqb_refl. reflexivity.
Qed.

End SharedKeyword.

Lemma shared_keyword_tie_witness :
  detect_subject (U := basic_unicode) (u "Эта функция проста") = Some (u "программирование") /\
  get (u "программирование") (subject_scores (U := basic_unicode) (u "Эта функция проста"))
  = Some (count shared_keyword (lower (Unicode := basic_unicode) (u "Эта функция проста"))) /\
  get (u "математика") (subject_scores (U := basic_unicode) (u "Эта функция проста"))
  = Some (count shared_keyword (lower (Unicode := basic_unicode) (u "Эта функция проста"))).
Proof.
  apply (shared_keyword_tie (U := basic_unicode) (u "Эта функция проста")).
  - vm_compute. reflexivity.
  - apply Forall_forall. intros k Hk Hne.
    assert (B : forallb (fun k => str_eqb k shared_keyword
                                  || (count k (lower (Unicode := basic_unicode)
                                                     (u "Эта функция проста")) =? 0))
                        (concat (map snd subject_keywords)) = true)
      by (vm_compute; reflexivity).
    rewrite forallb_forall in B. specialize (B k Hk).
    apply orb_true_iff in B. destruct B as [B|B].
    + apply str_eqb_eq in B. contradiction.
    + apply Z.eqb_eq. exact B.
Defined.

(** ** Lines that start with a bullet marker *)

Lemma space_10 : is_space 10 = true.
Proof. reflexivity. Qed.

(** The first line of a text, against the text. *)
Lemma split_char_cons (c : Z) (x : Z) (s : str) :
  x <> c ->
  exists f fs, split_char c s = f :: fs /\ split_char c (x :: s) = (x :: f) :: fs.
Proof.
  intros N. simpl. destruct (Z.eqb_spec x c) as [E|_]; [contradiction|].
  destruct (split_char c s) as [|f fs] eqn:E.
  - exfalso. exact (split_char_nonempty c s E).
  - exists f, fs. auto.
Qed.

Lemma first_line_head (s : str) (f : str) (fs : list str) :
  split_char 10 s = f :: fs ->
  match s with
  | [] => f = []
  | d :: _ => if d =? 10 then f = [] else exists f', f = d :: f'
  end.
Proof.
  destruct s as [|d s]; simpl.
  - intros H. inversion H. reflexivity.
  - destruct (d =? 10).
    + intros H. inversion H. reflexivity.
    + destruct (split_char 10 s) as [|g gs]; intros H; inversion H; eexists; reflexivity.
Qed.

Lemma len_filter_cons {A} (p : A -> bool) (x : A) (l : list A) :
  len (filter p (x :: l)) = (if p x then 1 else 0) + len (filter p l).
Proof. cbn [filter]. destruct (p x); [rewrite len_cons|]; lia. Qed.

Lemma lstrip_prefix (s : str) :
  exists ws, s = ws ++ lstrip s /\ Forall (fun c => is_space c = true) ws.
Proof.
  induction s as [|d s (ws & E & F)]; simpl; [exists []; auto|].
  destruct (is_space d) eqn:Sp.
  - exists (d :: ws). split; [simpl; f_equal; exact E | constructor; assumption].
  - exists []. auto.
Qed.

(** The two bullet patterns of the source differ by their markers only,
    none of which is whitespace. *)
Section BulletLines.
Variable bullets : list Z.
Hypothesis bullets_not_space : forall c, is_bullet bullets c = true -> is_space c = false.

Lemma is_bullet_not_space (c : Z) :
  is_bullet bullets c = true -> is_space c = false /\ c <> 10.
Proof.
  intros H. apply bullets_not_space in H. split; [exact H|].
  intros ->. rewrite space_10 in H. discriminate H.
Qed.

Lemma starts_with_bullet_cons (c : Z) (f : str) :
  starts_with_bullet bullets (c :: f)
  = if is_space c then starts_with_bullet bullets f else is_bullet bullets c.
Proof. unfold starts_with_bullet. cbn [lstrip]. destruct (is_space c); reflexivity. Qed.

Lemma fresh_bullets_lines (s : str) :
  fresh_bullets bullets true s
  = len (filter (starts_with_bullet bullets) (split_char 10 s)) /\
  fresh_bullets bullets false s
  = len (filter (starts_with_bullet bullets) (tl (split_char 10 s))).
Proof.
  induction s as [|c s [IHt IHf]].
  - split; reflexivity.
  - cbn [fresh_bullets]. destruct (Z.eqb_spec c 10) as [->|N].
    + simpl split_char. cbn [tl]. rewrite len_filter_cons.
      change (starts_with_bullet bullets []) with false. cbv iota.
      split; [rewrite IHt; lia | exact IHt].
    + destruct (split_char_cons 10 c s N) as (f & fs & E & E').
      rewrite E'. rewrite E in IHt, IHf. cbn [tl] in *.
      rewrite len_filter_cons in *. rewrite starts_with_bullet_cons.
      destruct (is_space c) eqn:Sp.
      * split; [exact IHt | exact IHf].
      * rewrite IHf. cbn [andb]. split; lia.
Qed.

Lemma fresh_bullets_mono (s : str) :
  0 <= fresh_bullets bullets false s <= fresh_bullets bullets true s.
Proof.
  induction s as [|c s IH]; cbn [fresh_bullets]; [lia|].
  destruct (c =? 10); [lia|]. destruct (is_space c); [lia|].
  cbn [andb]. destruct (is_bullet bullets c); lia.
Qed.

(** Leading whitespace leaves the bullets of a fresh line as they are. *)
Lemma fresh_bullets_true_skip (ws rest : str) :
  Forall (fun c => is_space c = true) ws ->
  fresh_bullets bullets true (ws ++ rest) = fresh_bullets bullets true rest.
Proof.
  induction 1 as [|c ws Hc _ IH]; [reflexivity|].
  cbn [app fresh_bullets]. rewrite Hc, IH. destruct (c =? 10); reflexivity.
Qed.

(** What the bullet pattern matches. *)
Lemma bullet_line_shape (p : option Z) (s : str) (n : nat) :
  bullet_line bullets p s = Some n ->
  exists ws b sp t,
    s = 10 :: ws ++ b :: sp :: t /\ Forall (fun c => is_space c = true) ws /\
    is_bullet bullets b = true /\ is_space sp = true /\ n = (length ws + 3)%nat.
Proof.
  unfold bullet_line. destruct s as [|c r]; [discriminate|].
  destruct (Z.eqb_spec c 10) as [->|N].
  2:{ destruct c as [|c|c]; try discriminate.
      do 4 (destruct c as [c|c|]; try discriminate). exfalso. apply N. reflexivity. }
  destruct (lstrip_prefix r) as (ws & E & F).
  destruct (lstrip r) as [|b [|sp t]] eqn:L; try discriminate.
  fold (is_bullet bullets b).
  destruct (is_bullet bullets b) eqn:Hb; [|discriminate].
  destruct (is_space sp) eqn:Hs; [|discriminate].
  cbn [andb]. intros H. injection H as <-.
  exists ws, b, sp, t. repeat split; auto.
  - congruence.
  - rewrite E at 1. cbn [length]. rewrite length_app. cbn [length]. lia.
Qed.

Lemma fresh_bullets_after_marker (ws : str) (b sp : Z) (t : str) :
  Forall (fun c => is_space c = true) ws ->
  is_bullet bullets b = true -> is_space sp = true ->
  fresh_bullets bullets true (ws ++ b :: sp :: t)
  = 1 + (if sp =? 10 then fresh_bullets bullets true t else fresh_bullets bullets false t).
Proof.
  intros F Hb Hs. rewrite fresh_bullets_true_skip by exact F.
  destruct (is_bullet_not_space b Hb) as [Nb N10].
  cbn [fresh_bullets]. rewrite (proj2 (Z.eqb_neq b 10) N10), Nb, Hb, Hs.
  cbn [andb]. reflexivity.
Qed.

(** The pattern never matches more often than lines start with a bullet
    marker, the first line apart. *)
Lemma bullet_matches_le (s : str) : forall (prev : option Z) (skip : nat),
  len (findall_from (bullet_line bullets) prev skip s)
  <= fresh_bullets bullets false (skipn skip s).
Proof.
  induction s as [|c s IH]; intros prev skip.
  - destruct skip; cbn; lia.
  - cbn [findall_from]. destruct skip as [|k]; [|apply IH].
    cbn [skipn].
    destruct (bullet_line bullets prev (c :: s)) as [n|] eqn:M.
    + destruct (bullet_line_shape _ _ _ M) as (ws & b & sp & t & E & F & Hb & Hs & ->).
      injection E as -> ->. rewrite len_cons.
      replace (length ws + 3 - 1)%nat with (length ws + 2)%nat by lia.
      specialize (IH (Some 10) (length ws + 2)%nat).
      rewrite skipn_app in IH. rewrite skipn_all2 in IH by lia.
      replace (length ws + 2 - length ws)%nat with 2%nat in IH by lia.
      cbn [app skipn] in IH.
      cbn [fresh_bullets]. change (10 =? 10) with true. cbv iota.
      rewrite fresh_bullets_after_marker by assumption.
      pose proof (fresh_bullets_mono t). destruct (sp =? 10); lia.
    + specialize (IH (Some c) O). cbn [skipn] in IH.
      pose proof (fresh_bullets_mono s). cbn [fresh_bullets].
      destruct (c =? 10); [lia|]. destruct (is_space c); [lia|].
      cbn [andb]. lia.
Qed.

Lemma fresh_spaced_mono (s : str) :
  fresh_spaced bullets true s = true -> fresh_spaced bullets false s = true.
Proof.
  induction s as [|c s IH]; cbn [fresh_spaced]; [auto|].
  destruct (c =? 10); [auto|]. destruct (is_space c); [auto|].
  cbn [andb]. intros H. apply andb_true_iff in H. apply H.
Qed.

Lemma fresh_spaced_true_skip (ws rest : str) :
  Forall (fun c => is_space c = true) ws ->
  fresh_spaced bullets true (ws ++ rest) = fresh_spaced bullets true rest.
Proof.
  induction 1 as [|c ws Hc _ IH]; [reflexivity|].
  cbn [app fresh_spaced]. rewrite Hc, IH. destruct (c =? 10); reflexivity.
Qed.

(** After whitespace and a character that is no marker, it does not
    matter whether the line was fresh. *)
Lemma fresh_bullets_no_marker (ws : str) (b : Z) (rest : str) (f : bool) :
  Forall (fun c => is_space c = true) ws ->
  is_space b = false -> is_bullet bullets b = false ->
  fresh_bullets bullets f (ws ++ b :: rest) = fresh_bullets bullets false rest.
Proof.
  intros F Nb Hb. revert f. induction F as [|c ws Hc _ IH]; intros f.
  - cbn [app fresh_bullets]. rewrite Nb, Hb, andb_false_r.
    destruct (Z.eqb_spec b 10) as [->|_]; [discriminate Nb | lia].
  - cbn [app fresh_bullets]. rewrite Hc. destruct (c =? 10); apply IH.
Qed.

Lemma fresh_bullets_blank (ws : str) (f : bool) :
  Forall (fun c => is_space c = true) ws -> fresh_bullets bullets f ws = 0.
Proof.
  intros F. revert f. induction F as [|c ws Hc _ IH]; intros f; [reflexivity|].
  cbn [fresh_bullets]. rewrite Hc. destruct (c =? 10); apply IH.
Qed.

(** In a well marked text the pattern matches once for every line, the
    first apart, that starts with a bullet marker. *)
Lemma bullet_matches_eq (s : str) : forall (prev : option Z) (skip : nat),
  fresh_spaced bullets false (skipn skip s) = true ->
  len (findall_from (bullet_line bullets) prev skip s)
  = fresh_bullets bullets false (skipn skip s).
Proof.
  induction s as [|c s IH]; intros prev skip W.
  - destruct skip; reflexivity.
  - cbn [findall_from]. destruct skip as [|k]; [|apply IH; exact W].
    cbn [skipn] in *.
    destruct (bullet_line bullets prev (c :: s)) as [n|] eqn:M.
    + destruct (bullet_line_shape _ _ _ M) as (ws & b & sp & t & E & F & Hb & Hs & ->).
      injection E as -> ->. rewrite len_cons.
      replace (length ws + 3 - 1)%nat with (length ws + 2)%nat by lia.
      destruct (is_bullet_not_space b Hb) as [Nb N10].
      cbn [fresh_spaced] in W. change (10 =? 10) with true in W. cbv iota in W.
      rewrite fresh_spaced_true_skip in W by exact F.
      cbn [fresh_spaced] in W.
      rewrite (proj2 (Z.eqb_neq b 10) N10), Nb, Hb, Hs in W. cbn [andb] in W.
      apply andb_true_iff in W. destruct W as [W1 W2].
      apply negb_true_iff in W1. rewrite W1 in W2.
      rewrite (IH (Some 10) (length ws + 2)%nat).
      * rewrite skipn_app, skipn_all2 by lia.
        replace (length ws + 2 - length ws)%nat with 2%nat by lia.
        cbn [app skipn fresh_bullets]. change (10 =? 10) with true. cbv iota.
        rewrite fresh_bullets_after_marker by assumption. rewrite W1. lia.
      * rewrite skipn_app, skipn_all2 by lia.
        replace (length ws + 2 - length ws)%nat with 2%nat by lia.
        cbn [app skipn]. exact W2.
    + assert (W' : fresh_spaced bullets false s = true).
      { cbn [fresh_spaced] in W. destruct (c =? 10); [apply fresh_spaced_mono; exact W|].
        destruct (is_space c); [exact W|]. cbn [andb] in W. exact W. }
      rewrite (IH (Some c) O) by exact W'. cbn [skipn fresh_bullets].
      destruct (Z.eqb_spec c 10) as [->|N].
      * cbn [fresh_spaced] in W. change (10 =? 10) with true in W. cbv iota in W.
        unfold bullet_line in M. destruct (lstrip_prefix s) as (ws & E & F).
        destruct (lstrip s) as [|b r] eqn:L.
        -- rewrite app_nil_r in E. subst s.
           rewrite !fresh_bullets_blank by exact F. reflexivity.
        -- pose proof (lstrip_head s b r L) as Nb.
           destruct (is_bullet bullets b) eqn:Hb.
           ++ exfalso. rewrite E in W. rewrite fresh_spaced_true_skip in W by exact F.
              destruct (is_bullet_not_space b Hb) as [_ N10].
              cbn [fresh_spaced] in W.
              rewrite (proj2 (Z.eqb_neq b 10) N10), Nb, Hb in W. cbn [andb] in W.
              destruct r as [|sp t]; [discriminate W|].
              apply andb_true_iff in W. destruct W as [W _].
              apply andb_true_iff in W. destruct W as [W _].
              fold (is_bullet bullets b) in M. rewrite Hb, W in M. discriminate M.
           ++ rewrite E. rewrite !fresh_bullets_no_marker by assumption. reflexivity.
      * destruct (is_space c); [reflexivity|]. cbn [andb]. lia.
Qed.

Lemma spaced_bullet_cons (c : Z) (f : str) :
  spaced_bullet bullets (c :: f)
  = if is_space c then spaced_bullet bullets f
    else match f with
         | d :: _ => is_bullet bullets c && is_space d
         | [] => false
         end.
Proof. unfold spaced_bullet. cbn [lstrip]. destruct (is_space c); reflexivity. Qed.

Lemma fresh_spaced_lines (s : str) :
  fresh_spaced bullets true s
  = forallb (fun line => implb (starts_with_bullet bullets line) (spaced_bullet bullets line))
            (split_char 10 s) /\
  fresh_spaced bullets false s
  = forallb (fun line => implb (starts_with_bullet bullets line) (spaced_bullet bullets line))
            (tl (split_char 10 s)).
Proof.
  induction s as [|c s [IHt IHf]].
  - split; reflexivity.
  - cbn [fresh_spaced]. destruct (Z.eqb_spec c 10) as [->|N].
    + simpl split_char. cbn [tl forallb].
      change (starts_with_bullet bullets []) with false. cbn [implb andb].
      split; exact IHt.
    + destruct (split_char_cons 10 c s N) as (f & fs & E & E').
      pose proof (first_line_head s f fs E) as Hd.
      rewrite E'. rewrite E in IHt, IHf. cbn [tl forallb] in *.
      rewrite starts_with_bullet_cons, spaced_bullet_cons.
      destruct (is_space c) eqn:Sp; [split; [exact IHt | exact IHf]|].
      rewrite IHf. cbn [andb]. split; [|reflexivity]. f_equal.
      destruct (is_bullet bullets c); [|reflexivity]. cbn [implb andb].
      destruct s as [|d s'].
      * subst f. reflexivity.
      * destruct (d =? 10) eqn:D.
        -- subst f. rewrite andb_false_r. reflexivity.
        -- destruct Hd as [f' ->]. rewrite andb_true_r. reflexivity.
Qed.

(** The matches of the bullet pattern are never more than the lines that
    start with a bullet marker. *)
Lemma bullet_count_le (text : str) :
  len (findall (bullet_line bullets) text) <= bullet_start_lines bullets text.
Proof.
  unfold bullet_start_lines, findall.
  pose proof (bullet_matches_le text None O) as H. cbn [skipn] in H.
  pose proof (fresh_bullets_mono text) as M.
  rewrite <- (proj1 (fresh_bullets_lines text)). lia.
Qed.

(** They are as many in a well marked text. *)
Lemma bullet_count_eq (text : str) :
  bullets_well_marked bullets text = true ->
  len (findall (bullet_line bullets) text) = bullet_start_lines bullets text.
Proof.
  unfold bullets_well_marked. intros H. apply andb_true_iff in H. destruct H as [H1 H2].
  apply negb_true_iff in H1.
  rewrite <- (proj1 (fresh_spaced_lines text)) in H2. apply fresh_spaced_mono in H2.
  unfold bullet_start_lines, findall.
  rewrite (bullet_matches_eq text None O) by exact H2. cbn [skipn].
  rewrite (proj2 (fresh_bullets_lines text)).
  destruct (split_char 10 text) as [|f fs] eqn:E.
  - exfalso. exact (split_char_nonempty 10 text E).
  - cbn [hd tl] in *. rewrite len_filter_cons, H1. lia.
Qed.

End BulletLines.

Lemma style_bullets_not_space (c : Z) : is_bullet [45; 42] c = true -> is_space c = false.
Proof.
  unfold is_bullet. cbn [existsb]. rewrite !orb_true_iff, !Z.eqb_eq.
  intros [->|[->|H]]; [reflexivity | reflexivity | discriminate H].
Qed.

Lemma engagement_bullets_not_space (c : Z) :
  is_bullet [45; 42; 8226] c = true -> is_space c = false.
Proof.
  unfold is_bullet. cbn [existsb]. rewrite !orb_true_iff, !Z.eqb_eq.
  intros [->|[->|[->|H]]]; [reflexivity | reflexivity | reflexivity | discriminate H].
Qed.

(** The bullet count of [suggest_learning_style] never exceeds the
    number of lines that start with a bullet marker. *)
Lemma bullet_lines_le (text : str) : bullet_lines text <= bullet_start_lines [45; 42] text.
Proof. apply (bullet_count_le [45; 42] style_bullets_not_space). Qed.

(** It equals that number in a well marked text. *)
Lemma bullet_lines_eq (text : str) :
  bullets_well_marked [45; 42] text = true ->
  bullet_lines text = bullet_start_lines [45; 42] text.
Proof. apply (bullet_count_eq [45; 42] style_bullets_not_space). Qed.

(** ** The scores of [suggest_learning_style], entry by entry *)

Lemma three_entries_scores (kv ka kp : str) (pv pa pp : Z) (cm bl : bool) :
  str_eqb kp kv = false -> str_eqb kp ka = false ->
  str_eqb kv ka = false -> str_eqb kv kp = false ->
  0 <= pv -> 0 <= pa -> 0 <= pp ->
  (if bl then add kv 3 (if cm then add kp 5 (entry_of kv pv ++ entry_of ka pa ++ entry_of kp pp)
                        else entry_of kv pv ++ entry_of ka pa ++ entry_of kp pp)
   else if cm then add kp 5 (entry_of kv pv ++ entry_of ka pa ++ entry_of kp pp)
        else entry_of kv pv ++ entry_of ka pa ++ entry_of kp pp)
  = (if pv >? 0 then [(kv, pv + (if bl then 3 else 0))] else [])
    ++ (if pa >? 0 then [(ka, pa)] else [])
    ++ (if pp >? 0 then [(kp, pp + (if cm then 5 else 0))] else [])
    ++ (if (pp =? 0) && cm then [(kp, 5)] else [])
    ++ (if (pv =? 0) && bl then [(kv, 3)] else []).
Proof.
  intros H1 H2 H3 H4 Hv Ha Hp. unfold entry_of. rewrite !Z.gtb_ltb.
  destruct (Z.ltb_spec 0 pv) as [Pv|Pv];
    [assert (Ev : (pv =? 0) = false) by (apply Z.eqb_neq; lia)
    |assert (pv = 0) by lia; subst pv; assert (Ev : (0 =? 0) = true) by reflexivity];
    rewrite Ev; clear Ev;
  (destruct (Z.ltb_spec 0 pp) as [Pp|Pp];
    [assert (Ep : (pp =? 0) = false) by (apply Z.eqb_neq; lia)
    |assert (pp = 0) by lia; subst pp; assert (Ep : (0 =? 0) = true) by reflexivity];
    rewrite Ep; clear Ep);
  destruct (Z.ltb_spec 0 pa) as [Pa|Pa];
  destruct cm; destruct bl; cbn [app add andb];
    rewrite ?H1, ?H2, ?H3, ?H4, ?str_eqb_refl; cbn [app add andb];
    rewrite ?H1, ?H2, ?H3, ?H4, ?str_eqb_refl; cbn [app add andb];
    rewrite ?H1, ?H2, ?H3, ?H4, ?str_eqb_refl; cbn [app add andb];
    rewrite ?Z.add_0_r; reflexivity.
Qed.

Lemma style_names_differ :
  str_eqb practical visual = false /\ str_eqb practical auditory = false /\
  str_eqb visual auditory = false /\ str_eqb visual practical = false /\
  str_eqb auditory practical = false /\ str_eqb auditory visual = false.
Proof. vm_compute. repeat split; reflexivity. Qed.

Lemma learning_styles_shape :
  learning_styles
  = [(visual, keywords_for visual); (auditory, keywords_for auditory);
     (practical, keywords_for practical)].
Proof. vm_compute. reflexivity. Qed.

(** The same for any three entries of distinct names. *)
Lemma three_styles_exact (kv ka kp : str) (Kv Ka Kp : list str)
      (pres : list str -> Z) (cm bl : bool) :
  str_eqb kp kv = false -> str_eqb kp ka = false ->
  str_eqb kv ka = false -> str_eqb kv kp = false ->
  str_eqb ka kp = false -> str_eqb ka kv = false ->
  (forall K, 0 <= pres K) ->
  (if bl
   then add kv 3
          (if cm
           then add kp 5 (flat_map (fun e => entry_of (fst e) (pres (snd e)))
                                   [(kv, Kv); (ka, Ka); (kp, Kp)])
           else flat_map (fun e => entry_of (fst e) (pres (snd e)))
                         [(kv, Kv); (ka, Ka); (kp, Kp)])
   else if cm
        then add kp 5 (flat_map (fun e => entry_of (fst e) (pres (snd e)))
                                [(kv, Kv); (ka, Ka); (kp, Kp)])
        else flat_map (fun e => entry_of (fst e) (pres (snd e)))
                      [(kv, Kv); (ka, Ka); (kp, Kp)])
  = flat_map (fun e : str * list str =>
                if pres (snd e) >? 0
                then [(fst e,
                       pres (snd e)
                       + (if str_eqb (fst e) kp && cm then 5 else 0)
                       + (if str_eqb (fst e) kv && bl then 3 else 0))]
                else [])
             [(kv, Kv); (ka, Ka); (kp, Kp)]
    ++ (if (pres Kp =? 0) && cm then [(kp, 5)] else [])
    ++ (if (pres Kv =? 0) && bl then [(kv, 3)] else []).
Proof.
  intros H1 H2 H3 H4 H5 H6 Hp. cbn [flat_map fst snd]. rewrite !app_nil_r.
  rewrite H1, H4, H5, H6, !str_eqb_refl. cbn [andb].
  rewrite (three_entries_scores kv ka kp (pres Kv) (pres Ka) (pres Kp) cm bl
             H1 H2 H3 H4 (Hp Kv) (Hp Ka) (Hp Kp)).
  rewrite !Z.add_0_r, <- !app_assoc. reflexivity.
Qed.

Section Exact.
Context {U : Unicode}.

Lemma style_scores_exact (text : str) : style_scores text = expected_style_scores text.
Proof.
  rewrite style_scores_unfold. cbv zeta. unfold expected_style_scores, style_points.
  rewrite learning_styles_shape.
  destruct style_names_differ as (H1 & H2 & H3 & H4 & H5 & H6).
  exact (three_styles_exact visual auditory practical
           (keywords_for visual) (keywords_for auditory) (keywords_for practical)
           (present text) (code_marker text) (bullet_lines text >? 3)
           H1 H2 H3 H4 H5 H6 (present_nonneg text)).
Qed.

End Exact.

(** ** [suggest_learning_style], claim C4 *)

Lemma index_of_cons (k x : str) (l : list str) :
  index_of k (x :: l) = if str_eqb k x then O else S (index_of k l).
Proof. reflexivity. Qed.

(** The entries of a dict without repeated keys stand in its own order. *)
Lemma dict_in_order (d : dict) : NoDup (keys d) -> StronglySorted (comes_before d) d.
Proof.
  induction d as [|[k v] d IH]; intros N; [constructor|].
  inversion N as [|? ? Hk N']; subst.
  assert (Other : forall y, In y d -> str_eqb (fst y) k = false).
  { intros y Hy. apply str_eqb_neq. intros E. apply Hk. rewrite <- E.
    unfold keys. apply in_map. exact Hy. }
  constructor.
  - eapply StronglySorted_weaken_In; [|apply IH; exact N'].
    intros a b Ia Ib H. unfold comes_before in *. cbn [keys map fst].
    fold (keys d). rewrite !index_of_cons, (Other a Ia), (Other b Ib). lia.
  - apply Forall_forall. intros y Hy. unfold comes_before. cbn [keys map fst].
    fold (keys d). rewrite !index_of_cons, str_eqb_refl, (Other y Hy). lia.
Qed.

Section LearningStyleRanking.
Context {U : Unicode}.

(** C4, as amended.  A style scores one per keyword present, 'практический'
    5 more on a code marker, 'визуальный' 3 more when the bullet count of the
    code exceeds 3.  That count never exceeds the number of lines that start
    with a bullet marker, and equals it in a text where no such line is the
    first and each marker has whitespace after it on its line.  [scores] holds the
    styles of positive score: those with a keyword present in the order of
    the lexicon, then the two that only a bonus scored.  With no positive
    score the result is the default list of three styles.  Otherwise it is
    the first two names of [scores] ranked by descending score, styles of
    equal score staying in the order of [scores], and has at most two
    items. *)
Theorem suggest_learning_style_spec (text : str) :
  style_scores text = expected_style_scores text /\
  (forall e, In e learning_styles ->
     get (fst e) (style_scores text)
     = if style_points text e >? 0 then Some (style_points text e) else None) /\
  bullet_lines text <= bullet_start_lines [45; 42] text /\
  (bullets_well_marked [45; 42] text = true ->
   bullet_lines text = bullet_start_lines [45; 42] text) /\
  ((forall e, In e learning_styles -> style_points text e = 0) ->
   suggest_learning_style text = [practical; visual; auditory]) /\
  ((exists e, In e learning_styles /\ style_points text e <> 0) ->
   exists ranked,
     Permutation ranked (style_scores text) /\
     StronglySorted (desc_then (comes_before (style_scores text))) ranked /\
     suggest_learning_style text = map fst (firstn 2 ranked) /\
     (length (suggest_learning_style text) <= 2)%nat).
Proof.
  split; [apply style_scores_exact|]. split; [apply style_scores_get|].
  split; [apply bullet_lines_le|]. split; [apply bullet_lines_eq|]. split.
  - intros H. unfold suggest_learning_style.
    rewrite (style_scores_empty text H). reflexivity.
  - intros H. apply style_scores_nonempty in H.
    exists (sorted_desc (style_scores text)).
    split; [apply sorted_desc_perm|].
    split; [apply sorted_desc_stable; apply dict_in_order;
            apply NoDup_keys_style_scores|].
    assert (E : suggest_learning_style text
                = map fst (firstn 2 (sorted_desc (style_scores text)))).
    { unfold suggest_learning_style. rewrite truthy_nonempty; [reflexivity|].
      intros N. apply H. apply (proj1 (sorted_desc_nil_iff _) N). }
    split; [exact E|]. rewrite E, length_map. apply firstn_le_length.
Qed.

End LearningStyleRanking.

(** C4, as stated, fails twice.  On the empty text the result has three
    items.  In a text of four bullet lines of which the first is the first
    line of the text, more than three lines start with a bullet marker, yet
    the visual style gets no bonus and the default list is returned. *)
Lemma suggest_learning_style_claim_fails :
  ~ (length (suggest_learning_style (U := basic_unicode) []) <= 2)%nat /\
  3 < bullet_start_lines [45; 42] first_line_bullets_text /\
  get visual (style_scores (U := basic_unicode) first_line_bullets_text) = None /\
  suggest_learning_style (U := basic_unicode) first_line_bullets_text
  = [practical; visual; auditory].
Proof.
  split; [|split; [|split]].
  - vm_compute. intros H. repeat apply le_S_n in H. inversion H.
  - vm_compute. reflexivity.
  - vm_compute. reflexivity.
  - vm_compute. reflexivity.
Qed.

Example three_styles_ranked :
  suggest_learning_style (U := basic_unicode) three_styles_text = [practical; auditory].
Proof. vm_compute. reflexivity. Qed.

Example equal_scores_keep_order :
  suggest_learning_style (U := basic_unicode) (u "лекция и схема") = [visual; auditory].
Proof. vm_compute. reflexivity. Qed.

Lemma suggest_learning_style_spec_witness :
  suggest_learning_style (U := basic_unicode) [] = [practical; visual; auditory] /\
  bullet_lines bullets_text = bullet_start_lines [45; 42] bullets_text /\
  exists ranked,
    Permutation ranked (style_scores (U := basic_unicode) three_styles_text) /\
    StronglySorted
      (desc_then (comes_before (style_scores (U := basic_unicode) three_styles_text)))
      ranked /\
    suggest_learning_style (U := basic_unicode) three_styles_text
    = map fst (firstn 2 ranked) /\
    (length (suggest_learning_style (U := basic_unicode) three_styles_text) <= 2)%nat.
Proof.
  pose proof (suggest_learning_style_spec (U := basic_unicode) [])
    as (_ & _ & _ & _ & D & _).
  pose proof (suggest_learning_style_spec (U := basic_unicode) bullets_text)
    as (_ & _ & _ & B & _ & _).
  pose proof (suggest_learning_style_spec (U := basic_unicode) three_styles_text)
    as (_ & _ & _ & _ & _ & R).
  split; [|split].
  - apply D. apply Forall_forall.
    apply (Forall_Zeqb (fun e => style_points (U := basic_unicode) [] e) (fun _ => 0)).
    vm_compute. reflexivity.
  - apply B. vm_compute. reflexivity.
  - apply R. exists (practical, keywords_for practical). split.
    + rewrite learning_styles_shape. right. right. left. reflexivity.
    + vm_compute. discriminate.
Defined.

(** ** [calculate_readability], claim C2 *)

Lemma Prim2SF_ge_100_not_lt (x : spec_float) :
  SFleb (Prim2SF 100) x = true -> SFltb x (Prim2SF 100) = false.
Proof.
  rewrite Prim2SF_100. unfold SFleb, SFltb, SFcompare.
  destruct x as [s|s| |s m e]; try discriminate; try (destruct s; discriminate).
  - destruct s; [discriminate | reflexivity].
  - destruct s; [discriminate|].
    rewrite (Z.compare_antisym e (-46)).
    destruct (e ?= -46) eqn:C; cbn [CompOpp]; try discriminate; try reflexivity.
    rewrite (Pos.compare_cont_spec 7036874417766400 m Eq),
            (Pos.compare_cont_spec m 7036874417766400 Eq),
            (Pos.compare_antisym m 7036874417766400).
    destruct (m ?= 7036874417766400)%positive; cbn [CompOpp Pos.switch_Eq];
      try discriminate; reflexivity.
Qed.

(** A float that is at most 0 is below 100 and not above 0; one that is
    at least 100 is not below 100. *)
Lemma leb_0_cases (r : float) :
  PrimFloat.leb r 0 = true -> PrimFloat.ltb r 100 = true /\ PrimFloat.ltb 0 r = false.
Proof.
  rewrite (leb_spec r 0), (ltb_spec r 100), (ltb_spec 0 r), Prim2SF_0, Prim2SF_100.
  unfold SFleb, SFltb, SFcompare.
  destruct (Prim2SF r) as [s|s| |s m e]; try discriminate.
  - intros _. split; reflexivity.
  - destruct s; [intros _; split; reflexivity | discriminate].
  - destruct s; [intros _; split; reflexivity | discriminate].
Qed.

Lemma leb_100_cases (r : float) :
  PrimFloat.leb 100 r = true -> PrimFloat.ltb r 100 = false.
Proof.
  rewrite (leb_spec 100 r), (ltb_spec r 100). apply Prim2SF_ge_100_not_lt.
Qed.

(** [round(max(0, min(100, r)), 1)], by the place of [r]. *)
Lemma clamp_round_cases (r : float) :
  let v := py_round1 (py_max (PInt 0) (py_min (PInt 100) (PFloat r))) in
  (PrimFloat.leb r 0 = true -> v = PInt 0) /\
  (PrimFloat.leb 100 r = true -> v = PInt 100) /\
  (PrimFloat.ltb 0 r = true -> PrimFloat.ltb r 100 = true -> v = PFloat (float_round1 r)).
Proof.
  cbv zeta. unfold py_min, py_max. cbn [num_lt to_float]. rewrite to_float_100.
  split; [|split].
  - intros H. destruct (leb_0_cases r H) as [H1 H2]. rewrite H1.
    cbn [num_lt to_float]. rewrite to_float_0, H2. reflexivity.
  - intros H. rewrite (leb_100_cases r H). reflexivity.
  - intros H0 H1. rewrite H1. cbn [num_lt to_float]. rewrite to_float_0, H0. reflexivity.
Qed.

Lemma readability_formula (text : str) :
  sentences_of text <> [] -> split_ws text <> [] ->
  calculate_readability text
  = Some (py_round1 (py_max (PInt 0) (py_min (PInt 100) (PFloat (flesch text))))).
Proof.
  intros Hs Hw. unfold calculate_readability. fold (sentences_of text).
  rewrite (truthy_nonempty _ Hs), (truthy_nonempty _ Hw). cbn [negb orb].
  unfold int_truediv.
  rewrite (len_eqb_0 _ (truthy_nonempty _ Hs)), (len_eqb_0 _ (truthy_nonempty _ Hw)).
  reflexivity.
Qed.

(** C2.  With a sentence and a word, [calculate_readability] returns the
    value of the formula, clamped by [max(0, min(100, .))] and rounded to
    one decimal: 0 when the value is at most 0, 100 when it is at least
    100, and between the two its rounding, which is a tenth [k/10].
    Without a sentence or without a word it returns 50. *)
Theorem calculate_readability_spec (text : str) :
  (sentences_of text <> [] -> split_ws text <> [] ->
   calculate_readability text
   = Some (py_round1 (py_max (PInt 0) (py_min (PInt 100) (PFloat (flesch text))))) /\
   (PrimFloat.leb (flesch text) 0 = true -> calculate_readability text = Some (PInt 0)) /\
   (PrimFloat.leb 100 (flesch text) = true ->
    calculate_readability text = Some (PInt 100)) /\
   (PrimFloat.ltb 0 (flesch text) = true -> PrimFloat.ltb (flesch text) 100 = true ->
    calculate_readability text = Some (PFloat (float_round1 (flesch text))) /\
    exists k, 0 <= k <= 1000 /\ float_round1 (flesch text) = truediv_value k 10)) /\
  (sentences_of text = [] \/ split_ws text = [] ->
   calculate_readability text = Some (PInt 50)).
Proof.
  split.
  - intros Hs Hw. rewrite (readability_formula text Hs Hw).
    destruct (clamp_round_cases (flesch text)) as (C0 & C100 & C).
    split; [reflexivity|]. split; [|split].
    + intros H. rewrite (C0 H). reflexivity.
    + intros H. rewrite (C100 H). reflexivity.
    + intros H0 H1. rewrite (C H0 H1). split; [reflexivity|].
      apply float_round1_tenth; assumption.
  - intros G. unfold calculate_readability. fold (sentences_of text).
    destruct G as [G|G]; rewrite G; cbn [truthy negb orb]; [reflexivity|].
    rewrite orb_true_r. reflexivity.
Qed.

Lemma calculate_readability_spec_witness :
  (calculate_readability dense_text = Some (PFloat (float_round1 (flesch dense_text))) /\
   exists k, 0 <= k <= 1000 /\ float_round1 (flesch dense_text) = truediv_value k 10) /\
  calculate_readability short_text = Some (PInt 100) /\
  calculate_readability (u "...") = Some (PInt 50).
Proof.
  split; [|split].
  - assert (Hs : sentences_of dense_text <> []) by (vm_compute; discriminate).
    assert (Hw : split_ws dense_text <> []) by (vm_compute; discriminate).
    apply (proj1 (calculate_readability_spec dense_text) Hs Hw).
    + vm_compute. reflexivity.
    + vm_compute. reflexivity.
  - assert (Hs : sentences_of short_text <> []) by (vm_compute; discriminate).
    assert (Hw : split_ws short_text <> []) by (vm_compute; discriminate).
    apply (proj1 (calculate_readability_spec short_text) Hs Hw).
    vm_compute. reflexivity.
  - apply (proj2 (calculate_readability_spec (u "..."))).
    left. vm_compute. reflexivity.
Defined.

(** ** [calculate_engagement_score], claim C3 *)

Lemma sum_const_two {A} (l : list A) : sum (map (fun _ => 2) l) = 2 * len l.
Proof.
  induction l as [|a l IH]; simpl map; [reflexivity|].
  rewrite sum_cons, len_cons, IH. lia.
Qed.

Lemma to_float_25 : truediv_value 25 1 = 25%float.
Proof. vm_compute. reflexivity. Qed.

Lemma clamp_max_min (x : Z) : Z.max 0 (Z.min 100 x) = clamp 0 100 x.
Proof.
  unfold clamp. destruct (Z.ltb_spec x 0); [lia|]. destruct (Z.ltb_spec 100 x); lia.
Qed.

Lemma len_filter_le {A} (p : A -> bool) (l : list A) : 0 <= len (filter p l) <= len l.
Proof.
  induction l as [|a l IH]; [cbn; lia|].
  rewrite len_filter_cons, len_cons. destruct (p a); lia.
Qed.

Section EngagementFormula.
Context {U : Unicode}.

Lemma engagement_formula (text : str) :
  calculate_engagement_score text
  = Some (clamp 0 100 (engagement_points (engagement_bullets text) text)).
Proof.
  unfold calculate_engagement_score.
  pose proof (split_char_nonempty 46 text) as Hs.
  rewrite (truthy_nonempty _ Hs). unfold int_truediv.
  rewrite (len_eqb_0 _ (truthy_nonempty _ Hs)).
  cbn [num_lt to_float]. rewrite to_float_25.
  fold (words_per_sentence text). fold (long_sentences text).
  rewrite sum_const_two. fold (engaging_present text). fold (example_trigger text).
  fold (question_marks text). fold (engagement_bullets text).
  rewrite clamp_max_min. unfold engagement_points.
  destruct (example_trigger text); destruct (long_sentences text); f_equal; f_equal; lia.
Qed.

(** C3, as amended.  The engagement score is the clamp to 0..100 of 50,
    plus 2 for each engaging word present in the lowercased text, plus 10
    on an example trigger, plus 3 for each question mark, plus 2 for each
    match of the bullet pattern, minus 10 when the words per period-split
    fragment exceed 25.  The matches of the bullet pattern are never more
    than the lines that start with [-], [*] or the bullet sign after
    whitespace, and as many in a text where no such line is the first and
    each marker has whitespace after it on its line; there the score is
    the one of the claim.  Four question marks and nothing else give 62. *)
Theorem calculate_engagement_score_spec (text : str) :
  calculate_engagement_score text
  = Some (clamp 0 100 (engagement_points (engagement_bullets text) text)) /\
  0 <= engaging_present text <= len engaging_words /\
  engagement_bullets text <= bullet_start_lines [45; 42; 8226] text /\
  (bullets_well_marked [45; 42; 8226] text = true ->
   engagement_bullets text = bullet_start_lines [45; 42; 8226] text /\
   calculate_engagement_score text
   = Some (clamp 0 100
             (engagement_points (bullet_start_lines [45; 42; 8226] text) text))) /\
  (question_marks text = 4 -> engaging_present text = 0 ->
   example_trigger text = false -> engagement_bullets text = 0 ->
   long_sentences text = false ->
   calculate_engagement_score text = Some 62).
Proof.
  split; [apply engagement_formula|]. split; [apply len_filter_le|].
  split; [apply (bullet_count_le [45; 42; 8226] engagement_bullets_not_space)|].
  split.
  - intros W.
    pose proof (bullet_count_eq [45; 42; 8226] engagement_bullets_not_space text W) as E.
    fold (engagement_bullets text) in E. split; [exact E|].
    rewrite <- E. apply engagement_formula.
  - intros Q W X B L. rewrite engagement_formula. unfold engagement_points.
    rewrite Q, W, X, B, L. reflexivity.
Qed.

End EngagementFormula.

(** C3, as stated, fails on a text whose first line is a bullet line: two
    lines start with a bullet marker, the claim gives 54, and the score
    is 52. *)
Lemma calculate_engagement_score_claim_fails :
  bullet_start_lines [45; 42; 8226] two_bullets_text = 2 /\
  clamp 0 100 (engagement_points (U := basic_unicode)
                 (bullet_start_lines [45; 42; 8226] two_bullets_text) two_bullets_text)
  = 54 /\
  calculate_engagement_score (U := basic_unicode) two_bullets_text = Some 52.
Proof. vm_compute. repeat split; reflexivity. Qed.

(** An engaging word counts once, however often it occurs. *)
Example engaging_word_counts_once :
  calculate_engagement_score (U := basic_unicode) (u "Важно, важно и ещё раз важно") = Some 52.
Proof. vm_compute. reflexivity. Qed.

Lemma calculate_engagement_score_spec_witness :
  (engagement_bullets listed_text = bullet_start_lines [45; 42; 8226] listed_text /\
   calculate_engagement_score (U := basic_unicode) listed_text
   = Some (clamp 0 100
             (engagement_points (U := basic_unicode)
                (bullet_start_lines [45; 42; 8226] listed_text) listed_text))) /\
  calculate_engagement_score (U := basic_unicode) four_questions_text = Some 62.
Proof.
  pose proof (calculate_engagement_score_spec (U := basic_unicode) listed_text)
    as (_ & _ & _ & W & _).
  pose proof (calculate_engagement_score_spec (U := basic_unicode) four_questions_text)
    as (_ & _ & _ & _ & Q).
  split.
  - apply W. vm_compute. reflexivity.
  - apply Q; vm_compute; reflexivity.
Defined.

(** ** The keywords, claim C5 *)

Section KeywordsClaim.
Context {U : Unicode}.

(** A letter of the class is a word character. *)
Lemma not_word_not_letter (c : option Z) :
  is_word_opt c = false -> is_letter_opt c = false.
Proof.
  destruct c as [x|]; [|reflexivity]. cbn [is_word_opt is_letter_opt]. unfold is_word.
  intros H. apply orb_false_iff in H. destruct H as [H _].
  destruct (is_lower_letter x) eqn:E; [|reflexivity].
  rewrite (isalnum_lower_letter x E) in H. discriminate H.
Qed.

(** C5.  The keywords are at most ten and pairwise distinct.  Each is a run
    of letters of [[а-яa-z]] of the lowercased text, with no such letter
    (indeed no word character) next to it on either side, has at least four
    characters and is no stop word.  They stand by decreasing number of
    occurrences among the filtered words, equally frequent ones in the order
    of their first occurrence, and a filtered word is left out only when ten
    keywords rank before it. *)
Theorem keywords_spec (text : str) :
  (length (keywords_of text) <= 10)%nat /\
  NoDup (keywords_of text) /\
  StronglySorted (ranks_before (filtered_words_of text)) (keywords_of text) /\
  (forall k, In k (keywords_of text) ->
     4 <= len k /\ ~ In k stop_words /\ k <> [] /\
     Forall (fun c => is_lower_letter c = true) k /\
     exists pre post,
       lower text = pre ++ k ++ post /\
       is_letter_opt (last_or None pre) = false /\
       is_letter_opt (hd_error post) = false /\
       is_word_opt (last_or None pre) = false /\
       is_word_opt (hd_error post) = false) /\
  (forall w, In w (filtered_words_of text) -> ~ In w (keywords_of text) ->
     length (keywords_of text) = 10%nat /\
     forall k, In k (keywords_of text) -> ranks_before (filtered_words_of text) k w).
Proof.
  split; [rewrite keywords_of_unfold, length_map; apply firstn_le_length|].
  split; [eapply StronglySorted_NoDup; [apply ranks_before_irrefl | apply keywords_of_sorted]|].
  split; [apply keywords_of_sorted|]. split.
  - intros k I. apply keywords_of_In in I. apply filtered_words_In in I.
    destruct I as (W & S & L).
    destruct (words_of_shape _ _ W) as (N & F & pre & post & E & Wp & Wq).
    split; [lia|]. split; [exact S|]. split; [exact N|]. split; [exact F|].
    exists pre, post. repeat split; auto using not_word_not_letter.
  - intros w Iw Nw.
    set (fw := filtered_words_of text) in *.
    pose proof (ranking_sorted fw) as [S E].
    assert (Il : In (w, times w fw) (sorted_desc (Counter fw))) by (apply E; auto).
    rewrite <- (firstn_skipn 10 (sorted_desc (Counter fw))) in Il, S.
    apply in_app_or in Il. destruct Il as [Il|Il].
    { exfalso. apply Nw. rewrite keywords_of_unfold. fold fw.
      change w with (fst (w, times w fw)). apply in_map. exact Il. }
    apply StronglySorted_app_inv in S. destruct S as [_ S]. split.
    + rewrite keywords_of_unfold. fold fw. rewrite length_map, length_firstn.
      destruct (Nat.le_gt_cases 10 (length (sorted_desc (Counter fw)))) as [H|H]; [lia|].
      rewrite skipn_all2 in Il by lia. destruct Il.
    + intros k Ik. rewrite keywords_of_unfold in Ik. fold fw in Ik.
      apply in_map_iff in Ik. destruct Ik as ([k' v] & <- & Ik).
      apply (S (k', v) (w, times w fw) Ik Il).
Qed.

End KeywordsClaim.

Lemma keywords_spec_witness :
  4 <= len (u "текст") /\ ~ In (u "текст") stop_words /\ u "текст" <> [] /\
  Forall (fun c => is_lower_letter c = true) (u "текст") /\
  exists pre post,
    lower (Unicode := basic_unicode) keywords_text = pre ++ u "текст" ++ post /\
    is_letter_opt (last_or None pre) = false /\
    is_letter_opt (hd_error post) = false /\
    is_word_opt (U := basic_unicode) (last_or None pre) = false /\
    is_word_opt (U := basic_unicode) (hd_error post) = false.
Proof.
  apply (proj1 (proj2 (proj2 (proj2 (keywords_spec (U := basic_unicode) keywords_text))))
               (u "текст")).
  vm_compute. right. left. reflexivity.
Defined.

(** ** The range of the two scores, claim C6 *)

Lemma clamp_range (x : Z) : 0 <= clamp 0 100 x <= 100.
Proof.
  unfold clamp. destruct (Z.ltb_spec x 0); [lia|]. destruct (Z.ltb_spec 100 x); lia.
Qed.

Section ScoresRange.
Context {U : Unicode}.

(** C6.  On a text that is not empty, [calculate_readability] and
    [calculate_engagement_score] return a value, and it is between 0 and
    100. *)
Theorem scores_in_range (text : str) :
  text <> [] ->
  (exists v, calculate_readability text = Some v /\ in_scale v = true) /\
  (exists e, calculate_engagement_score text = Some e /\ 0 <= e <= 100).
Proof.
  intros _. split.
  - destruct (readability_values text) as (v & E & H). exists v. split; [exact E|].
    destruct scale_of_ints as (S50 & S0 & S100 & _).
    destruct H as [->|[->|[->|(k & Hk & ->)]]]; auto using scale_of_tenths.
  - rewrite engagement_formula. eexists. split; [reflexivity | apply clamp_range].
Qed.

End ScoresRange.

Lemma scores_in_range_witness :
  (exists v, calculate_readability dense_text = Some v /\ in_scale v = true) /\
  (exists e, calculate_engagement_score (U := basic_unicode) dense_text = Some e /\
             0 <= e <= 100).
Proof.
  apply (scores_in_range (U := basic_unicode) dense_text).
  vm_compute. discriminate.
Defined.

(** ** No exception, claim C7 *)

Section NoException.
Context {U : Unicode}.

(** C7.  No operation fails, on any text.  [detect_subject] takes its
    maximum over scores that are not empty, [calculate_readability]
    divides only when there is a sentence and a word and returns 50
    otherwise, [calculate_engagement_score] divides by the number of
    fragments, which is at least one, and [analyze_comprehensive] divides
    the word count by the sentence count or by 1 when there is no
    sentence.  The other operations are total functions of the text: they
    neither divide nor take a maximum.  The report of the empty text holds
    the defaults: subject 'общий', no keyword, the three default styles,
    readability 50 and engagement 50. *)
Theorem no_exception (text : str) :
  (exists s, detect_subject text = Some s) /\
  (exists v, calculate_readability text = Some v) /\
  (exists e, calculate_engagement_score text = Some e) /\
  (exists r, analyze_comprehensive text = Some r /\
     1 <= Z.max (len (sentences_of text)) 1 /\
     int_truediv (len (words_of text)) (Z.max (len (sentences_of text)) 1)
     = Some (avg_sentence_length (basic_stats r))) /\
  (sentences_of text = [] \/ split_ws text = [] ->
   calculate_readability text = Some (PInt 50)) /\
  (exists r, analyze_comprehensive [] = Some r /\
     subject r = general /\ keywords r = [] /\
     learning_styles_of r = [practical; visual; auditory] /\
     readability_score r = PInt 50 /\ engagement_score r = 50 /\
     flashcards r = [] /\ word_count (basic_stats r) = 0 /\
     sentence_count (basic_stats r) = 0 /\
     avg_sentence_length (basic_stats r) = truediv_value 0 1).
Proof.
  split; [apply detect_subject_defined|].
  split; [destruct (readability_values text) as (v & E & _); exists v; exact E|].
  split; [apply engagement_defined|]. split; [|split].
  - unfold analyze_comprehensive. fold (sentences_of text).
    destruct (detect_subject_defined text) as [s ->].
    destruct (readability_values text) as (v & -> & _).
    destruct (engagement_defined text) as [e ->].
    unfold int_truediv.
    assert (Hn : (Z.max (len (sentences_of text)) 1 =? 0) = false)
      by (apply Z.eqb_neq; lia).
    rewrite Hn. eexists. split; [reflexivity|]. split; [lia | reflexivity].
  - intros G. unfold calculate_readability. fold (sentences_of text).
    destruct G as [G|G]; rewrite G; cbn [truthy negb orb]; [reflexivity|].
    rewrite orb_true_r. reflexivity.
  - assert (Hd : detect_subject [] = Some general).
    { unfold detect_subject, subject_scores. rewrite lower_empty. vm_compute. reflexivity. }
    assert (Hr : calculate_readability [] = Some (PInt 50)) by reflexivity.
    assert (He : calculate_engagement_score [] = Some 50).
    { unfold calculate_engagement_score. rewrite lower_empty. vm_compute. reflexivity. }
    assert (Hs : suggest_learning_style [] = [practical; visual; auditory]).
    { unfold suggest_learning_style, style_scores. rewrite lower_empty. vm_compute. reflexivity. }
    assert (Hk : keywords_of [] = []).
    { unfold keywords_of, filtered_words_of, words_of. rewrite lower_empty. reflexivity. }
    unfold analyze_comprehensive. rewrite Hd, Hr, He, Hs, Hk.
    unfold words_of. rewrite lower_empty.
    eexists. split; [reflexivity|].
    cbn [subject keywords learning_styles_of readability_score engagement_score
         flashcards basic_stats word_count sentence_count avg_sentence_length].
    repeat split; reflexivity.
Qed.

End NoException.

Lemma no_exception_witness : calculate_readability (u " . ") = Some (PInt 50).
Proof.
  apply (proj1 (proj2 (proj2 (proj2 (proj2 (no_exception (U := basic_unicode) (u " . "))))))).
  left. vm_compute. reflexivity.
Defined.

(** ** [generate_flashcards], claim C8 *)

Section FlashcardsClaim.
Context {U : Unicode}.

Lemma find_first {A} (p : A -> bool) (l : list A) (x : A) :
  find p l = Some x ->
  exists before after,
    l = before ++ x :: after /\ p x = true /\ Forall (fun y => p y = false) before.
Proof.
  induction l as [|y l IH]; [discriminate|]. simpl. destruct (p y) eqn:E.
  - intros H. injection H as ->. exists [], l. auto.
  - intros H. destruct (IH H) as (b & a & -> & Px & Fb). exists (y :: b), a. auto.
Qed.

(** C8.  [generate_flashcards] returns at most five cards and looks at the
    first five keywords only.  Its cards are those of these keywords, in
    their order: a keyword that some sentence mentions without regard to
    case gets exactly one card, whose back is the first such sentence,
    whose front is the question made of the keyword and whose keyword is
    the keyword; a keyword that no sentence mentions gets none.  The
    sentences are those of the source: the fragments between periods,
    stripped, without the empty ones. *)
Theorem generate_flashcards_spec (text : str) (kws : list str) :
  (length (generate_flashcards text kws) <= 5)%nat /\
  generate_flashcards text kws = generate_flashcards text (firstn 5 kws) /\
  generate_flashcards text kws = flat_map (cards_of text) (firstn 5 kws) /\
  forall k,
    (forall s, In s (flashcard_sentences text) -> mentions k s = true ->
       exists before first after,
         flashcard_sentences text = before ++ first :: after /\
         mentions k first = true /\
         Forall (fun s' => mentions k s' = false) before /\
         cards_of text k
         = [ {| front := u "Что такое " ++ k ++ u "?"; back := first; keyword := k |} ]) /\
    ((forall s, In s (flashcard_sentences text) -> mentions k s = false) ->
     cards_of text k = []).
Proof.
  split; [|split; [|split]].
  - rewrite generate_flashcards_eq.
    assert (L : (length (firstn 5 kws) <= 5)%nat) by apply firstn_le_length.
    revert L. generalize (firstn 5 kws) as l. intros l.
    assert (G : (length (flat_map (cards_of text) l) <= length l)%nat).
    { induction l as [|k l IH]; [simpl; lia|].
      cbn [flat_map]. rewrite length_app. unfold cards_of at 1.
      destruct (find _ _); simpl length; lia. }
    lia.
  - rewrite !generate_flashcards_eq, firstn_firstn. reflexivity.
  - apply generate_flashcards_eq.
  - intros k. unfold cards_of. split.
    + intros s I M.
      destruct (find (mentions k) (flashcard_sentences text)) as [x|] eqn:F.
      * destruct (find_first _ _ _ F) as (b & a & E & Mx & Fb).
        exists b, x, a. auto.
      * rewrite (find_none _ _ F s I) in M. discriminate M.
    + intros H.
      destruct (find (mentions k) (flashcard_sentences text)) as [x|] eqn:F; [|reflexivity].
      apply find_some in F. destruct F as [I M]. rewrite (H x I) in M. discriminate M.
Qed.

End FlashcardsClaim.

Lemma generate_flashcards_spec_witness :
  exists before first after,
    flashcard_sentences cards_text = before ++ first :: after /\
    mentions (U := basic_unicode) (u "алгоритм") first = true /\
    Forall (fun s' => mentions (U := basic_unicode) (u "алгоритм") s' = false) before /\
    cards_of (U := basic_unicode) cards_text (u "алгоритм")
    = [ {| front := u "Что такое " ++ u "алгоритм" ++ u "?"; back := first;
           keyword := u "алгоритм" |} ].
Proof.
  apply (proj1 (proj2 (proj2 (proj2
           (generate_flashcards_spec (U := basic_unicode) cards_text cards_keywords)))
           (u "алгоритм"))
         (u "Алгоритм это порядок")).
  - vm_compute. right. left. reflexivity.
  - vm_compute. reflexivity.
Defined.

(** ** The difficulty level, claim C9 *)

Section DifficultyLevel.
Context {U : Unicode}.

(** C9.  In every report the level of the difficulty interpretation is
    'Лёгкий' exactly when the readability score is at least 70, 'Средний'
    exactly when it is at least 50 and below 70, and 'Сложный' exactly
    when it is below 50; it is one of the three.  The scores 70 and 50
    themselves are 'Лёгкий' and 'Средний'. *)
Theorem difficulty_levels (text : str) (r : report) :
  analyze_comprehensive text = Some r ->
  let score := readability_score r in
  let l := level (difficulty_interpretation r) in
  (l = easy <-> num_le (PInt 70) score = true) /\
  (l = medium <-> num_le (PInt 50) score = true /\ num_lt score (PInt 70) = true) /\
  (l = hard <-> num_lt score (PInt 50) = true) /\
  (l = easy \/ l = medium \/ l = hard) /\
  level (_interpret_readability (PFloat 70)) = easy /\
  level (_interpret_readability (PFloat 50)) = medium /\
  level (_interpret_readability (PInt 50)) = medium.
Proof.
  intros A. apply analyze_comprehensive_parts in A.
  destruct A as (_ & R & _ & _ & _ & _ & _ & _ & D & _). cbv zeta. rewrite D.
  destruct (readability_values text) as (v & E & H).
  rewrite E in R. injection R as <-.
  assert (M : level_matches v = true).
  { destruct level_of_ints as (L50 & L0 & L100).
    destruct H as [->|[->|[->|(k & Hk & ->)]]]; auto using level_of_tenths. }
  unfold level_matches in M. cbv zeta in M.
  apply andb_true_iff in M. destruct M as [M M3].
  apply andb_true_iff in M. destruct M as [M1 M2].
  apply Bool.eqb_prop in M1. apply Bool.eqb_prop in M2. apply Bool.eqb_prop in M3.
  split; [rewrite <- str_eqb_eq, M1; tauto|].
  split; [rewrite <- str_eqb_eq, M2, andb_true_iff; tauto|].
  split; [rewrite <- str_eqb_eq, M3; tauto|]. split.
  - unfold _interpret_readability.
    destruct (num_le (PInt 70) v); [left; reflexivity|].
    destruct (num_le (PInt 50) v); [right; left | right; right]; reflexivity.
  - vm_compute. repeat split; reflexivity.
Qed.

End DifficultyLevel.

Lemma difficulty_levels_witness :
  exists r, analyze_comprehensive (U := basic_unicode) dense_text = Some r /\
    readability_score r = PFloat (truediv_value 402 10) /\
    (level (difficulty_interpretation r) = hard <->
     num_lt (readability_score r) (PInt 50) = true) /\
    level (difficulty_interpretation r) = hard.
Proof.
  destruct (analyze_comprehensive (U := basic_unicode) dense_text) as [r|] eqn:A.
  - exists r.
    pose proof (difficulty_levels (U := basic_unicode) dense_text r A) as (_ & _ & H & _).
    cbv zeta in H.
    assert (R : readability_score r = PFloat (truediv_value 402 10)).
    { apply analyze_comprehensive_parts in A. destruct A as (_ & R & _).
      assert (C : calculate_readability dense_text = Some (PFloat (truediv_value 402 10)))
        by (vm_compute; reflexivity).
      rewrite C in R. injection R as R. symmetry. exact R. }
    split; [reflexivity|]. split; [exact R|]. split; [exact H|].
    apply H. rewrite R. vm_compute. reflexivity.
  - vm_compute in A. discriminate A.
Defined.
